(** * Pong: the scene state machine of [videogame/scene.py]

    A shallow embedding of [Scene] and [GameScreen] and the properties of
    their per-frame update, event handling and start-up.

    Python integers are unbounded, so every number is a [Z]; [//] is floor
    division, which is [Z.div] for the positive divisors used here.  The
    objects are mutable in Python; here every method takes the object and
    returns the updated one.  The clock, the random generator and the sound
    channel live outside the scene and are threaded through a small state
    monad. *)

From Stdlib Require Import ZArith List String Bool Lia.
Import ListNotations.
Open Scope Z_scope.

(* Integer operations stay folded under [simpl] and [cbn]. *)
#[local] Arguments Z.add : simpl never.
#[local] Arguments Z.sub : simpl never.
#[local] Arguments Z.mul : simpl never.
#[local] Arguments Z.div : simpl never.
#[local] Arguments Z.modulo : simpl never.
#[local] Arguments Z.opp : simpl never.
#[local] Arguments Z.min : simpl never.
#[local] Arguments Z.max : simpl never.
#[local] Arguments Z.ltb : simpl never.
#[local] Arguments Z.gtb : simpl never.
#[local] Arguments Z.leb : simpl never.
#[local] Arguments Z.geb : simpl never.
#[local] Arguments Z.eqb : simpl never.

(** ** The parts of pygame the scenes use *)

Module Pygame.

(** [pygame.Rect]: integer position and size with the derived edges. *)
Record Rect := mkRect { rx : Z; ry : Z; rw : Z; rh : Z }.

Definition left (r : Rect) : Z := rx r.
Definition top (r : Rect) : Z := ry r.
Definition right (r : Rect) : Z := rx r + rw r.
Definition bottom (r : Rect) : Z := ry r + rh r.
Definition centerx (r : Rect) : Z := rx r + rw r / 2.
Definition centery (r : Rect) : Z := ry r + rh r / 2.

Definition set_x (v : Z) (r : Rect) : Rect := mkRect v (ry r) (rw r) (rh r).
Definition set_y (v : Z) (r : Rect) : Rect := mkRect (rx r) v (rw r) (rh r).

(** [Rect.colliderect]: rectangles of zero width or height collide with
    nothing; otherwise the open intervals must overlap on both axes. *)
Definition colliderect (a b : Rect) : bool :=
  if (rw a =? 0) || (rh a =? 0) || (rw b =? 0) || (rh b =? 0) then false
  else
    (Z.min (rx a) (rx a + rw a) <? Z.max (rx b) (rx b + rw b))
    && (Z.min (ry a) (ry a + rh a) <? Z.max (ry b) (ry b + rh b))
    && (Z.max (rx a) (rx a + rw a) >? Z.min (rx b) (rx b + rw b))
    && (Z.max (ry a) (ry a + rh a) >? Z.min (ry b) (ry b + rh b)).

(** Key codes: the five keys the scenes name, and every other key. *)
Inductive Key := K_w | K_s | K_UP | K_DOWN | K_ESCAPE | K_other (code : Z).

Definition key_eqb (a b : Key) : bool :=
  match a, b with
  | K_w, K_w | K_s, K_s | K_UP, K_UP | K_DOWN, K_DOWN
  | K_ESCAPE, K_ESCAPE => true
  | K_other m, K_other n => m =? n
  | _, _ => false
  end.

(** Events: only key events carry a [key] attribute. *)
Inductive Event :=
| QUIT
| KEYDOWN (key : Key)
| KEYUP (key : Key)
| OTHER (type : Z).

End Pygame.
Import Pygame.

(** ** The world outside the scene

    [pygame.time.get_ticks], the [random] module and the sound channel.
    The n-th reading of the clock and the n-th raw draw of the generator
    are given by two arbitrary functions, so a statement for every world
    covers every timing and every random outcome. *)

Inductive Sound := CountdownSound | PaddleSound | ScoreSound.

Record World := mkWorld {
  clock : nat -> Z;
  clock_reads : nat;
  rng : nat -> Z;
  rng_draws : nat;
  played : list Sound
}.

Definition M (A : Type) : Type := World -> A * World.

Definition ret {A} (a : A) : M A := fun w => (a, w).
Definition bind {A B} (m : M A) (k : A -> M B) : M B :=
  fun w => let (a, w') := m w in k a w'.

Notation "x <- m ;; k" := (bind m (fun x => k))
  (at level 61, m at next level, right associativity).
Notation "m ;;; k" := (bind m (fun _ => k))
  (at level 61, right associativity).

Definition get_ticks : M Z :=
  fun w => (clock w (clock_reads w),
            mkWorld (clock w) (S (clock_reads w)) (rng w) (rng_draws w) (played w)).

Definition draw : M Z :=
  fun w => (rng w (rng_draws w),
            mkWorld (clock w) (clock_reads w) (rng w) (S (rng_draws w)) (played w)).

(** [random.randint(a, b)]: an integer of [a..b], both ends included. *)
Definition randint (a b : Z) : M Z :=
  r <- draw ;; ret (a + r mod (b - a + 1)).

(** [random.choice([-1, 1])]: the raw draw picks the index. *)
Definition sign_of (r : Z) : Z := if r mod 2 =? 0 then -1 else 1.

Definition choice_sign : M Z :=
  r <- draw ;; ret (sign_of r).

(** [Sound.play()]: the log keeps the sounds in the order played. *)
Definition play (s : Sound) : M unit :=
  fun w => (tt, mkWorld (clock w) (clock_reads w) (rng w) (rng_draws w)
                        (played w ++ [s])).

(** ** Scene: the base class *)

Module Scene.

(** [soundtrack] is [None] for Python's [None]; it is falsy when [None]
    or empty. *)
Record t := mk {
  is_valid : bool;
  frame_rate : Z;
  soundtrack : option string
}.

Definition init (track : option string) : t := mk true 60 track.

(** [Scene.process_event], lines 32-39; the two prints go to [out]. *)
Definition process_event (event : Event) (self : t) (out : list string)
  : t * list string :=
  let (self, out) :=
    match event with
    | QUIT => (mk false (frame_rate self) (soundtrack self),
               out ++ ["Good Bye!"%string])
    | _ => (self, out)
    end in
  match event with
  | KEYDOWN K_ESCAPE => (mk false (frame_rate self) (soundtrack self),
                         out ++ ["Bye bye!"%string])
  | _ => (self, out)
  end.

(** The music channel.  [load_error p] is the argument tuple of the
    [pygame.error] that [pygame.mixer.music.load p] raises, [None] when
    the file loads.  [calls] records what was asked of the channel. *)
Inductive MusicCall :=
| CallLoad (path : string)
| CallSetVolume (tenths : Z)
| CallPlay (loops : Z) (fade_ms : Z).

Record Mixer := mkMixer {
  load_error : string -> option (list string);
  calls : list MusicCall;
  stdout : list string
}.

Inductive Outcome := Returned | SystemExit (msg : string).

Definition truthy (track : option string) : bool :=
  match track with
  | Some s => negb (String.eqb s "")
  | None => false
  end.

Definition newline : string := String (Ascii.ascii_of_nat 10) "".

(** [Scene.start_scene], lines 51-60.  The volume 1.0 is kept in tenths. *)
Definition start_scene (self : t) (m : Mixer) : Outcome * Mixer :=
  match soundtrack self with
  | Some path =>
      if truthy (soundtrack self) then
        let m1 := mkMixer (load_error m) (calls m ++ [CallLoad path]) (stdout m) in
        match load_error m path with
        | Some args =>
            (SystemExit "broken!!",
             mkMixer (load_error m1) (calls m1)
                     (stdout m1 ++ [String.concat newline args]))
        | None =>
            let m2 := mkMixer (load_error m1) (calls m1 ++ [CallSetVolume 10])
                              (stdout m1) in
            (Returned,
             mkMixer (load_error m2) (calls m2 ++ [CallPlay (-1) 500]) (stdout m2))
        end
      else (Returned, m)
  | None => (Returned, m)
  end.

End Scene.

(** ** GameScreen *)

Record GameScreen := mkGame {
  is_valid : bool;
  size : Z * Z;
  ball : Rect;
  ball_velocity : Z * Z;
  player : Rect;
  ai : Rect;
  player_move_up : bool;
  player_move_down : bool;
  player_speed : Z;
  ai_speed : Z;
  ai_delay : Z;
  player_score : Z;
  ai_score : Z;
  countdown : Z;
  countdown_timer : Z;
  countdown_sound_ms : Z;
  countdown_start_time : Z;
  countdown_played : bool;
  serve : bool;
  round_delay : Z;
  wait_after_score : bool;
  score_time : Z
}.

(** Attribute assignments, one per attribute the methods write. *)
Definition set_is_valid v s :=
  mkGame v (size s) (ball s) (ball_velocity s) (player s) (ai s)
    (player_move_up s) (player_move_down s) (player_speed s) (ai_speed s)
    (ai_delay s) (player_score s) (ai_score s) (countdown s)
    (countdown_timer s) (countdown_sound_ms s) (countdown_start_time s)
    (countdown_played s) (serve s) (round_delay s) (wait_after_score s)
    (score_time s).
Definition set_ball v s :=
  mkGame (is_valid s) (size s) v (ball_velocity s) (player s) (ai s)
    (player_move_up s) (player_move_down s) (player_speed s) (ai_speed s)
    (ai_delay s) (player_score s) (ai_score s) (countdown s)
    (countdown_timer s) (countdown_sound_ms s) (countdown_start_time s)
    (countdown_played s) (serve s) (round_delay s) (wait_after_score s)
    (score_time s).
Definition set_ball_velocity v s :=
  mkGame (is_valid s) (size s) (ball s) v (player s) (ai s)
    (player_move_up s) (player_move_down s) (player_speed s) (ai_speed s)
    (ai_delay s) (player_score s) (ai_score s) (countdown s)
    (countdown_timer s) (countdown_sound_ms s) (countdown_start_time s)
    (countdown_played s) (serve s) (round_delay s) (wait_after_score s)
    (score_time s).
Definition set_player v s :=
  mkGame (is_valid s) (size s) (ball s) (ball_velocity s) v (ai s)
    (player_move_up s) (player_move_down s) (player_speed s) (ai_speed s)
    (ai_delay s) (player_score s) (ai_score s) (countdown s)
    (countdown_timer s) (countdown_sound_ms s) (countdown_start_time s)
    (countdown_played s) (serve s) (round_delay s) (wait_after_score s)
    (score_time s).
Definition set_ai v s :=
  mkGame (is_valid s) (size s) (ball s) (ball_velocity s) (player s) v
    (player_move_up s) (player_move_down s) (player_speed s) (ai_speed s)
    (ai_delay s) (player_score s) (ai_score s) (countdown s)
    (countdown_timer s) (countdown_sound_ms s) (countdown_start_time s)
    (countdown_played s) (serve s) (round_delay s) (wait_after_score s)
    (score_time s).
Definition set_player_move_up v s :=
  mkGame (is_valid s) (size s) (ball s) (ball_velocity s) (player s) (ai s)
    v (player_move_down s) (player_speed s) (ai_speed s)
    (ai_delay s) (player_score s) (ai_score s) (countdown s)
    (countdown_timer s) (countdown_sound_ms s) (countdown_start_time s)
    (countdown_played s) (serve s) (round_delay s) (wait_after_score s)
    (score_time s).
Definition set_player_move_down v s :=
  mkGame (is_valid s) (size s) (ball s) (ball_velocity s) (player s) (ai s)
    (player_move_up s) v (player_speed s) (ai_speed s)
    (ai_delay s) (player_score s) (ai_score s) (countdown s)
    (countdown_timer s) (countdown_sound_ms s) (countdown_start_time s)
    (countdown_played s) (serve s) (round_delay s) (wait_after_score s)
    (score_time s).
Definition set_ai_delay v s :=
  mkGame (is_valid s) (size s) (ball s) (ball_velocity s) (player s) (ai s)
    (player_move_up s) (player_move_down s) (player_speed s) (ai_speed s)
    v (player_score s) (ai_score s) (countdown s)
    (countdown_timer s) (countdown_sound_ms s) (countdown_start_time s)
    (countdown_played s) (serve s) (round_delay s) (wait_after_score s)
    (score_time s).
Definition set_player_score v s :=
  mkGame (is_valid s) (size s) (ball s) (ball_velocity s) (player s) (ai s)
    (player_move_up s) (player_move_down s) (player_speed s) (ai_speed s)
    (ai_delay s) v (ai_score s) (countdown s)
    (countdown_timer s) (countdown_sound_ms s) (countdown_start_time s)
    (countdown_played s) (serve s) (round_delay s) (wait_after_score s)
    (score_time s).
Definition set_ai_score v s :=
  mkGame (is_valid s) (size s) (ball s) (ball_velocity s) (player s) (ai s)
    (player_move_up s) (player_move_down s) (player_speed s) (ai_speed s)
    (ai_delay s) (player_score s) v (countdown s)
    (countdown_timer s) (countdown_sound_ms s) (countdown_start_time s)
    (countdown_played s) (serve s) (round_delay s) (wait_after_score s)
    (score_time s).
Definition set_countdown_start_time v s :=
  mkGame (is_valid s) (size s) (ball s) (ball_velocity s) (player s) (ai s)
    (player_move_up s) (player_move_down s) (player_speed s) (ai_speed s)
    (ai_delay s) (player_score s) (ai_score s) (countdown s)
    (countdown_timer s) (countdown_sound_ms s) v
    (countdown_played s) (serve s) (round_delay s) (wait_after_score s)
    (score_time s).
Definition set_countdown_played v s :=
  mkGame (is_valid s) (size s) (ball s) (ball_velocity s) (player s) (ai s)
    (player_move_up s) (player_move_down s) (player_speed s) (ai_speed s)
    (ai_delay s) (player_score s) (ai_score s) (countdown s)
    (countdown_timer s) (countdown_sound_ms s) (countdown_start_time s)
    v (serve s) (round_delay s) (wait_after_score s)
    (score_time s).
Definition set_serve v s :=
  mkGame (is_valid s) (size s) (ball s) (ball_velocity s) (player s) (ai s)
    (player_move_up s) (player_move_down s) (player_speed s) (ai_speed s)
    (ai_delay s) (player_score s) (ai_score s) (countdown s)
    (countdown_timer s) (countdown_sound_ms s) (countdown_start_time s)
    (countdown_played s) v (round_delay s) (wait_after_score s)
    (score_time s).
Definition set_wait_after_score v s :=
  mkGame (is_valid s) (size s) (ball s) (ball_velocity s) (player s) (ai s)
    (player_move_up s) (player_move_down s) (player_speed s) (ai_speed s)
    (ai_delay s) (player_score s) (ai_score s) (countdown s)
    (countdown_timer s) (countdown_sound_ms s) (countdown_start_time s)
    (countdown_played s) (serve s) (round_delay s) v
    (score_time s).
Definition set_score_time v s :=
  mkGame (is_valid s) (size s) (ball s) (ball_velocity s) (player s) (ai s)
    (player_move_up s) (player_move_down s) (player_speed s) (ai_speed s)
    (ai_delay s) (player_score s) (ai_score s) (countdown s)
    (countdown_timer s) (countdown_sound_ms s) (countdown_start_time s)
    (countdown_played s) (serve s) (round_delay s) (wait_after_score s)
    v.

Definition width (s : GameScreen) : Z := fst (size s).
Definition height (s : GameScreen) : Z := snd (size s).

(** [GameScreen.__init__], lines 122-147.  [beep_ms] is the length of the
    countdown sound in milliseconds, [int(get_length() * 1000)], a property
    of the sound asset.  [_countdown_start_time] does not exist in Python
    before the first serve writes it; it is never read before, so it starts
    at 0 here. *)
Definition init (sz : Z * Z) (beep_ms : Z) : M GameScreen :=
  t <- get_ticks ;;
  ret (mkGame true sz
         (mkRect (fst sz / 2 - 15) (snd sz / 2 - 15) 30 30)
         (8, 8)
         (mkRect 30 (snd sz / 2 - 80) 20 180)
         (mkRect (fst sz - 40) (snd sz / 2 - 80) 20 180)
         false false 12 9 0 0 0 3 t beep_ms 0 false true 1000 false 0).

(** [_reset_ball], lines 270-276. *)
Definition reset_ball (self : GameScreen) : M GameScreen :=
  let self := set_ball (set_x (width self / 2 - 15) (ball self)) self in
  let self := set_ball (set_y (height self / 2 - 15) (ball self)) self in
  sx <- choice_sign ;;
  sy <- choice_sign ;;
  let self := set_ball_velocity (8 * sx, 8 * sy) self in
  let self := set_wait_after_score true self in
  t <- get_ticks ;;
  ret (set_score_time t self).

(** [_reset_player], lines 278-281. *)
Definition reset_player (self : GameScreen) : GameScreen :=
  let self := set_player (set_x 30 (player self)) self in
  set_player (set_y (height self / 2 - 80) (player self)) self.

(** [_reset_ai], lines 283-286. *)
Definition reset_ai (self : GameScreen) : GameScreen :=
  let self := set_ai (set_x (width self - 40) (ai self)) self in
  set_ai (set_y (height self / 2 - 80) (ai self)) self.

Definition flip_vx (self : GameScreen) : GameScreen :=
  set_ball_velocity (fst (ball_velocity self) * -1, snd (ball_velocity self)) self.
Definition flip_vy (self : GameScreen) : GameScreen :=
  set_ball_velocity (fst (ball_velocity self), snd (ball_velocity self) * -1) self.

(** Lines 202-208: the paddle contact test. *)
Definition paddle_contact (self : GameScreen) : M GameScreen :=
  if colliderect (ball self) (player self) then
    play PaddleSound ;;; ret (flip_vx self)
  else if colliderect (ball self) (ai self) then
    play PaddleSound ;;; ret (flip_vx self)
  else ret self.

(** Lines 210-211. *)
Definition move_ball (self : GameScreen) : GameScreen :=
  let self :=
    set_ball (set_x (rx (ball self) + fst (ball_velocity self)) (ball self)) self in
  set_ball (set_y (ry (ball self) + snd (ball_velocity self)) (ball self)) self.

(** Lines 213-225: the scoring check with the full reset. *)
Definition score_check (self : GameScreen) : M GameScreen :=
  if right (ball self) <? 0 then
    let self := set_ai_score (ai_score self + 1) self in
    play ScoreSound ;;;
    self <- reset_ball self ;;
    ret (reset_ai (reset_player self))
  else if left (ball self) >? width self then
    let self := set_player_score (player_score self + 1) self in
    play ScoreSound ;;;
    self <- reset_ball self ;;
    ret (reset_ai (reset_player self))
  else ret self.

(** Lines 227-230. *)
Definition wall_bounce (self : GameScreen) : M GameScreen :=
  if (bottom (ball self) >=? height self) || (top (ball self) <=? 0) then
    play PaddleSound ;;; ret (flip_vy self)
  else ret self.

(** Lines 232-236. *)
Definition move_player (self : GameScreen) : GameScreen :=
  let self :=
    if player_move_up self && (top (player self) >? 0) then
      set_player (set_y (ry (player self) - player_speed self) (player self)) self
    else self in
  if player_move_down self && (bottom (player self) <? height self) then
    set_player (set_y (ry (player self) + player_speed self) (player self)) self
  else self.

(** Lines 238-241. *)
Definition tick_ai_delay (self : GameScreen) : GameScreen :=
  let self := set_ai_delay (ai_delay self + 1) self in
  if ai_delay self >? 5 then set_ai_delay 0 self else self.

Definition dead_zone : Z := 60.

(** Lines 247-256, given the jitter drawn at line 243. *)
Definition ai_decide (ai_random : Z) (self : GameScreen) : GameScreen :=
  if (centery (ball self) + ai_random <? centery (ai self) - dead_zone)
     && (top (ai self) >? 0) then
    set_ai (set_y (ry (ai self) - ai_speed self) (ai self)) self
  else if (ry (ball self) + ai_random >? centery (ai self) + dead_zone)
          && (bottom (ai self) <? height self) then
    set_ai (set_y (ry (ai self) + ai_speed self) (ai self)) self
  else self.

(** Lines 243-256. *)
Definition move_ai (self : GameScreen) : M GameScreen :=
  ai_random <- randint (-40) 40 ;;
  ret (ai_decide ai_random self).

(** Lines 258-264: the second out-of-bounds check, without paddle reset. *)
Definition score_check_again (self : GameScreen) : M GameScreen :=
  if right (ball self) <? 0 then
    reset_ball (set_ai_score (ai_score self + 1) self)
  else if left (ball self) >? width self then
    reset_ball (set_player_score (player_score self + 1) self)
  else ret self.

(** Lines 266-268. *)
Definition win_check (self : GameScreen) : GameScreen :=
  if (player_score self >=? 3) || (ai_score self >=? 3) then
    set_is_valid false self
  else self.

(** Lines 227-268: walls, paddles, the second check and the win check. *)
Definition finish_frame (self : GameScreen) : M GameScreen :=
  self <- wall_bounce self ;;
  self <- move_ai (tick_ai_delay (move_player self)) ;;
  self <- score_check_again self ;;
  ret (win_check self).

(** Lines 202-268: what a frame does once neither wait holds it back. *)
Definition rally (self : GameScreen) : M GameScreen :=
  self <- paddle_contact self ;;
  self <- score_check (move_ball self) ;;
  finish_frame self.

(** Lines 192-200: the round delay, then the rest of the frame. *)
Definition after_serve (self : GameScreen) : M GameScreen :=
  if wait_after_score self then
    now <- get_ticks ;;
    if now - score_time self <? round_delay self then ret self
    else
      rally (set_countdown_played false
               (set_serve true (set_wait_after_score false self)))
  else rally self.

(** Lines 178-182: the countdown sound, once. *)
Definition start_countdown (self : GameScreen) : M GameScreen :=
  if negb (countdown_played self) then
    play CountdownSound ;;;
    t <- get_ticks ;;
    ret (set_countdown_played true (set_countdown_start_time t self))
  else ret self.

(** [GameScreen.update_scene], lines 175-268. *)
Definition update_scene (self : GameScreen) : M GameScreen :=
  if serve self then
    self <- start_countdown self ;;
    now <- get_ticks ;;
    let sound_length := countdown_sound_ms self in
    if now - countdown_start_time self <? sound_length then ret self
    else after_serve (set_serve false self)
  else after_serve self.

(** [GameScreen.process_event], lines 288-299.  It does not call the base
    class. *)
Definition process_event (event : Event) (self : GameScreen) : GameScreen :=
  let self :=
    match event with
    | KEYDOWN key =>
        let self :=
          if key_eqb key K_w || key_eqb key K_UP
          then set_player_move_up true self else self in
        if key_eqb key K_s || key_eqb key K_DOWN
        then set_player_move_down true self else self
    | _ => self
    end in
  match event with
  | KEYUP key =>
      let self :=
        if key_eqb key K_w || key_eqb key K_UP
        then set_player_move_up false self else self in
      if key_eqb key K_s || key_eqb key K_DOWN
      then set_player_move_down false self else self
  | _ => self
  end.

(** ** The three states of a match, read off the two flags in the order
    [update_scene] tests them. *)
Inductive Phase := Serving | ScoredWaiting | Rallying.

Definition phase (s : GameScreen) : Phase :=
  if serve s then Serving
  else if wait_after_score s then ScoredWaiting
  else Rallying.

(** ** Runs of the scene *)

Inductive Step := Frame | Input (e : Event).

Definition step (a : Step) (sw : GameScreen * World) : GameScreen * World :=
  match a with
  | Frame => update_scene (fst sw) (snd sw)
  | Input e => (process_event e (fst sw), snd sw)
  end.

Definition run (tr : list Step) (sw : GameScreen * World) : GameScreen * World :=
  fold_left (fun st a => step a st) tr sw.

(** The states a scene built for a surface of size [sz] can be in. *)
Inductive reachable (sz : Z * Z) (beep_ms : Z) : GameScreen * World -> Prop :=
| reach_init w0 : reachable sz beep_ms (init sz beep_ms w0)
| reach_step a sw : reachable sz beep_ms sw -> reachable sz beep_ms (step a sw).

(** ** Vocabulary of the statements *)

(** A block [f] keeps the observation [p] of the scene. *)
Definition keeps {A} (p : GameScreen -> A) (f : GameScreen -> M GameScreen) : Prop :=
  forall s w, p (fst (f s w)) = p s.

Definition pm8 (v : Z) : Prop := v = 8 \/ v = -8.

Definition velocity_ok (s : GameScreen) : Prop :=
  pm8 (fst (ball_velocity s)) /\ pm8 (snd (ball_velocity s)).

(** What no method of [GameScreen] ever writes: the surface size, the sizes
    of the three rectangles, the two speeds, the round delay and the length
    of the countdown sound. *)
Definition fixed (s : GameScreen) :=
  (size s, (rw (ball s), rh (ball s)), (rw (player s), rh (player s)),
   (rw (ai s), rh (ai s)), (player_speed s, ai_speed s),
   (round_delay s, countdown_sound_ms s)).

Definition fixed_at (sz : Z * Z) (beep_ms : Z) :=
  (sz, (30, 30), (20, 180), (20, 180), (12, 9), (1000, beep_ms)).

(** The ball touches a paddle (lines 203 and 206). *)
Definition contact (s : GameScreen) : bool :=
  colliderect (ball s) (player s) || colliderect (ball s) (ai s).

(** The scene at line 212: after the contact test and the ball's move. *)
Definition moved (s : GameScreen) : GameScreen :=
  move_ball (if contact s then flip_vx s else s).
#[local] Arguments moved : simpl never.

(** The ball is not past either side (neither test of line 214/220 fires). *)
Definition in_play (s : GameScreen) : Prop :=
  0 <= right (ball s) /\ left (ball s) <= width s.

(** The wall test of line 228. *)
Definition wall_hit (s : GameScreen) : bool :=
  (bottom (ball s) >=? height s) || (top (ball s) <=? 0).

(** The jitter line 243 draws in world [w]. *)
Definition jitter (w : World) : Z := -40 + rng w (rng_draws w) mod 81.

(** The start positions the resets assign. *)
Definition player_start (s : GameScreen) : Rect :=
  mkRect 30 (height s / 2 - 80) (rw (player s)) (rh (player s)).
Definition ai_start (s : GameScreen) : Rect :=
  mkRect (width s - 40) (height s / 2 - 80) (rw (ai s)) (rh (ai s)).

(** A score of 3 has been reached; [won_b] is the test of line 267. *)
Definition won (s : GameScreen) : Prop := 3 <= player_score s \/ 3 <= ai_score s.
Definition won_b (s : GameScreen) : bool :=
  (player_score s >=? 3) || (ai_score s >=? 3).

(** The two scores after a frame that starts from [s] with the ball about
    to be at [moved s]. *)
Definition scores_after (s : GameScreen) : Z * Z :=
  if right (ball (moved s)) <? 0 then (player_score s, ai_score s + 1)
  else if left (ball (moved s)) >? width s then (player_score s + 1, ai_score s)
  else (player_score s, ai_score s).


(** A match on the 750 x 750 window of [PongGame], with a three second
    countdown sound, a clock whose readings are one second apart, a
    generator whose every raw draw is 40 (jitter 0, sign -1), and no key
    pressed. *)
Definition demo_world : World :=
  mkWorld (fun n => 1000 * Z.of_nat n) 0 (fun _ => 40) 0 [].

Definition demo (frames : nat) : GameScreen * World :=
  run (repeat Frame frames) (init (750, 750) 3000 demo_world).

(** [_reset_ball] with the two signs and the clock reading it obtains. *)
Definition reset_ball_with (sx sy t : Z) (s : GameScreen) : GameScreen :=
  let s := set_ball (set_x (width s / 2 - 15) (ball s)) s in
  let s := set_ball (set_y (height s / 2 - 15) (ball s)) s in
  set_score_time t (set_wait_after_score true (set_ball_velocity (8 * sx, 8 * sy) s)).

(** The signs and the time a reset started in world [w] obtains. *)
Definition sign_x (w : World) : Z := sign_of (rng w (rng_draws w)).
Definition sign_y (w : World) : Z := sign_of (rng w (S (rng_draws w))).
Definition reading (w : World) : Z := clock w (clock_reads w).

(** Two worlds that differ at most in the sounds played. *)
Definition same_oracles (w w' : World) : Prop :=
  clock w' = clock w /\ clock_reads w' = clock_reads w /\
  rng w' = rng w /\ rng_draws w' = rng_draws w.

(** Observations that the paddle blocks and the win check leave alone. *)
Definition table (s : GameScreen) :=
  (ball s, ball_velocity s, (player_score s, ai_score s),
   (serve s, wait_after_score s, countdown_played s),
   (score_time s, countdown_start_time s), size s).

(** The serve of lines 178-190 in world [w]: the scene once the countdown
    has been started, the reading called [now], and the test of line 187. *)
Definition countdown_started (w : World) (s : GameScreen) : GameScreen :=
  if countdown_played s then s
  else set_countdown_played true (set_countdown_start_time (reading w) s).

Definition serve_now (w : World) (s : GameScreen) : Z :=
  if countdown_played s then reading w else clock w (S (clock_reads w)).

Definition countdown_pending (w : World) (s : GameScreen) : bool :=
  serve_now w s - countdown_start_time (countdown_started w s)
  <? countdown_sound_ms s.

(** The test of line 195 in world [w]. *)
Definition delay_pending (w : World) (s : GameScreen) : bool :=
  reading w - score_time s <? round_delay s.

(** The flags line 198-200 assign when the round delay is over. *)
Definition back_to_serve (s : GameScreen) : GameScreen :=
  set_countdown_played false (set_serve true (set_wait_after_score false s)).

(** The scene at line 226 of a frame that reaches the rally from [s] in
    world [w]: after the contact test, the ball's move and the first
    scoring check. *)
Definition after_check (s : GameScreen) (w : World) : GameScreen :=
  fst (score_check (moved s) (snd (paddle_contact s w))).

(** The demo match with the Up key held from the start. *)
Definition demo_up (frames : nat) : GameScreen * World :=
  run (Input (KEYDOWN K_UP) :: repeat Frame frames)
      (init (750, 750) 3000 demo_world).

(** A scene on a surface only 60 wide, the serve over: the ball overlaps
    both paddles. *)
Definition narrow_scene : GameScreen :=
  set_serve false (fst (init (60, 750) 3000 demo_world)).

(** A music channel on which every load fails, and one on which none does. *)
Definition broken_mixer : Scene.Mixer :=
  Scene.mkMixer (fun _ => Some ["No such file or directory."%string]) [] [].
Definition sound_mixer : Scene.Mixer :=
  Scene.mkMixer (fun _ => None) [] [].


(** How far the guards of lines 233-235 and 247-254 let a paddle go: less
    than one step past the top or the bottom of the surface. *)
Definition paddles_near (s : GameScreen) : Prop :=
  - player_speed s < ry (player s) < height s - rh (player s) + player_speed s /\
  - ai_speed s < ry (ai s) < height s - rh (ai s) + ai_speed s.

(** The ball before the wall test of line 228: it has just moved by its
    vertical velocity from a position inside the walls. *)
Definition ball_arrived (s : GameScreen) : Prop :=
  (snd (ball_velocity s) = 8 /\ 0 < ry (ball s) < height s - 30 + 8) \/
  (snd (ball_velocity s) = -8 /\ -8 < ry (ball s) < height s - 30).

(** The ball between frames: less than one step past a wall, and moving
    back in when it touches or is past one. *)
Definition ball_near (s : GameScreen) : Prop :=
  -8 < ry (ball s) < height s - 30 + 8 /\
  (ry (ball s) <= 0 -> snd (ball_velocity s) = 8) /\
  (height s <= ry (ball s) + 30 -> snd (ball_velocity s) = -8).

Definition court_ok (s : GameScreen) : Prop :=
  velocity_ok s /\ paddles_near s /\ ball_near s.

(** ** The press-any-key scenes

    [PressAnyKeyToExitScene] (and [TitleScreen], which inherits its handler)
    and [GameOver] add no attribute that their handlers read or write, so
    the handlers act on the attributes of the base class. *)

(** [PressAnyKeyToExitScene.process_event], lines 76-80. *)
Definition PressAnyKeyToExitScene_process_event
           (event : Event) (self : Scene.t) (out : list string)
  : Scene.t * list string :=
  let (self, out) := Scene.process_event event self out in
  match event with
  | KEYDOWN _ => (Scene.mk false (Scene.frame_rate self) (Scene.soundtrack self), out)
  | _ => (self, out)
  end.

(** [GameOver.process_event], lines 332-336. *)
Definition GameOver_process_event
           (event : Event) (self : Scene.t) (out : list string)
  : Scene.t * list string :=
  let (self, out) := Scene.process_event event self out in
  match event with
  | KEYDOWN _ => (Scene.mk false (Scene.frame_rate self) (Scene.soundtrack self), out)
  | _ => (self, out)
  end.

(** The events on which the base handler closes a scene, and those on which
    a press-any-key scene closes. *)
Definition closes (e : Event) : bool :=
  match e with
  | QUIT | KEYDOWN K_ESCAPE => true
  | _ => false
  end.

Definition closes_any_key (e : Event) : bool :=
  match e with
  | QUIT | KEYDOWN _ => true
  | _ => false
  end.

(** The movement flag a key belongs to, if any. *)
Definition moves_up (k : Key) : bool := key_eqb k K_w || key_eqb k K_UP.
Definition moves_down (k : Key) : bool := key_eqb k K_s || key_eqb k K_DOWN.

(** The two movement flags. *)
Definition held (s : GameScreen) : bool * bool :=
  (player_move_up s, player_move_down s).

(** Both paddles are in their columns. *)
Definition lanes_ok (s : GameScreen) : Prop :=
  rx (player s) = 30 /\ rx (ai s) = width s - 40.

(** The vertical position lines 232-236 give a paddle at [y] of height [ph]
    and lines 247-256 give the AI paddle, on a surface of height [h]. *)
Definition player_step (up down : bool) (y ph speed h : Z) : Z :=
  let y1 := if up && (y >? 0) then y - speed else y in
  if down && (y1 + ph <? h) then y1 + speed else y1.

Definition ai_step (r : Z) (b : Rect) (y ph speed h : Z) : Z :=
  if (centery b + r <? y + ph / 2 - dead_zone) && (y >? 0) then y - speed
  else if (ry b + r >? y + ph / 2 + dead_zone) && (y + ph <? h) then y + speed
  else y.

(** [in_play] as a test. *)
Definition in_play_b (s : GameScreen) : bool :=
  (0 <=? right (ball s)) && (left (ball s) <=? width s).

(** Where the ball is while the scene waits: at the centre during the round
    delay, within one step of it during the serve; and the two waits never
    hold at once. *)
Definition staged (s : GameScreen) : Prop :=
  (wait_after_score s = true ->
   serve s = false /\
   rx (ball s) = width s / 2 - 15 /\ ry (ball s) = height s / 2 - 15) /\
  (serve s = true ->
   wait_after_score s = false /\
   width s / 2 - 15 - 8 <= rx (ball s) <= width s / 2 - 15 + 8 /\
   height s / 2 - 15 - 8 <= ry (ball s) <= height s / 2 - 15 + 8).

(** The phase after a frame, from the phase before it and the test the
    frame makes. *)
Definition next_phase (s : GameScreen) (w : World) : Phase :=
  match phase s with
  | Serving => if countdown_pending w s then Serving else Rallying
  | ScoredWaiting => if delay_pending w s then ScoredWaiting else Serving
  | Rallying => if in_play_b (moved s) then Rallying else ScoredWaiting
  end.

(** The scores are settled: none is negative, and the scene is valid
    exactly when both are below 3. *)
Definition settled (s : GameScreen) : Prop :=
  0 <= player_score s /\ 0 <= ai_score s /\
  (is_valid s = true <-> player_score s < 3 /\ ai_score s < 3).

(** How often the score sound is in a log. *)
Definition score_sounds (l : list Sound) : nat :=
  List.length
    (filter (fun x => match x with ScoreSound => true | _ => false end) l).

(** The sounds of a rally frame from [s] in world [w], in the order played:
    the paddle hit, the score, the wall hit. *)
Definition rally_sounds (s : GameScreen) (w : World) : list Sound :=
  (if contact s then [PaddleSound] else [])
  ++ (if in_play_b (moved s) then [] else [ScoreSound])
  ++ (if wall_hit (after_check s w) then [PaddleSound] else []).

(** ** Reasoning about the monad *)

(* [lia] also decides goals with division and remainder by constants. *)
Ltac Zify.zify_post_hook ::= Z.to_euclidean_division_equations.

Lemma bind_inv {A B} (Q : A -> Prop) (R : B -> Prop) (m : M A) (k : A -> M B) w :
  Q (fst (m w)) ->
  (forall a w', Q a -> R (fst (k a w'))) ->
  R (fst (bind m k w)).
Proof.
  intros Hm Hk. unfold bind. destruct (m w) as [a w']. apply Hk. exact Hm.
Qed.

Lemma ret_fst {A} (a : A) w : fst (ret a w) = a.
Proof. reflexivity. Qed.

Lemma run_reachable sz beep_ms tr sw :
  reachable sz beep_ms sw -> reachable sz beep_ms (run tr sw).
Proof.
  revert sw. induction tr as [| a tr IH]; intros sw H; cbn.
  - exact H.
  - apply IH. now apply reach_step.
Qed.

Lemma demo_reachable n : reachable (750, 750) 3000 (demo n).
Proof. apply run_reachable, reach_init. Qed.

Ltac block_cases :=
  repeat match goal with
         | |- context [if ?c then _ else _] => destruct c eqn:?
         end.

Lemma table_fields s s' :
  table s' = table s ->
  ball s' = ball s /\ ball_velocity s' = ball_velocity s /\
  player_score s' = player_score s /\ ai_score s' = ai_score s /\
  serve s' = serve s /\ wait_after_score s' = wait_after_score s /\
  countdown_played s' = countdown_played s /\ score_time s' = score_time s /\
  countdown_start_time s' = countdown_start_time s /\ size s' = size s.
Proof.
  unfold table.
  generalize (ball s), (ball_velocity s), (player_score s), (ai_score s),
    (serve s), (wait_after_score s), (countdown_played s), (score_time s),
    (countdown_start_time s), (size s),
    (ball s'), (ball_velocity s'), (player_score s'), (ai_score s'),
    (serve s'), (wait_after_score s'), (countdown_played s'), (score_time s'),
    (countdown_start_time s'), (size s').
  intros. inversion H. repeat split; reflexivity.
Qed.

Lemma fixed_fields sz beep_ms s :
  fixed s = fixed_at sz beep_ms ->
  size s = sz /\ rw (ball s) = 30 /\ rh (ball s) = 30 /\
  rw (player s) = 20 /\ rh (player s) = 180 /\
  rw (ai s) = 20 /\ rh (ai s) = 180 /\
  player_speed s = 12 /\ ai_speed s = 9 /\
  round_delay s = 1000 /\ countdown_sound_ms s = beep_ms.
Proof.
  unfold fixed, fixed_at.
  generalize (size s), (rw (ball s)), (rh (ball s)), (rw (player s)),
    (rh (player s)), (rw (ai s)), (rh (ai s)), (player_speed s), (ai_speed s),
    (round_delay s), (countdown_sound_ms s).
  intros. inversion H. repeat split; reflexivity.
Qed.

(** ** The velocity of the ball *)

Lemma choice_sign_fst w : fst (choice_sign w) = -1 \/ fst (choice_sign w) = 1.
Proof.
  unfold choice_sign, sign_of, bind, draw, ret; cbn.
  destruct (_ =? 0); [left | right]; reflexivity.
Qed.

Lemma reset_ball_velocity s w : velocity_ok (fst (reset_ball s w)).
Proof.
  unfold reset_ball.
  apply bind_inv with (Q := fun sx => sx = -1 \/ sx = 1).
  { apply choice_sign_fst. }
  intros sx w1 Hx.
  apply bind_inv with (Q := fun sy => sy = -1 \/ sy = 1).
  { apply choice_sign_fst. }
  intros sy w2 Hy.
  unfold bind, get_ticks, ret, velocity_ok, pm8; cbn.
  lia.
Qed.

Lemma flip_vx_velocity s : velocity_ok s -> velocity_ok (flip_vx s).
Proof. unfold velocity_ok, pm8, flip_vx; cbn. lia. Qed.

Lemma flip_vy_velocity s : velocity_ok s -> velocity_ok (flip_vy s).
Proof. unfold velocity_ok, pm8, flip_vy; cbn. lia. Qed.

Lemma paddle_contact_velocity s w :
  velocity_ok s -> velocity_ok (fst (paddle_contact s w)).
Proof.
  intros H. unfold paddle_contact.
  destruct (colliderect (ball s) (player s));
    [| destruct (colliderect (ball s) (ai s))];
    cbn; auto using flip_vx_velocity.
Qed.

Lemma score_check_velocity s w :
  velocity_ok s -> velocity_ok (fst (score_check s w)).
Proof.
  intros H. unfold score_check.
  destruct (right (ball s) <? 0); [| destruct (left (ball s) >? width s)];
    try exact H.
  all: unfold bind; cbn [play];
    match goal with
    | |- context [reset_ball ?x ?y] =>
        pose proof (reset_ball_velocity x y) as Hr;
        destruct (reset_ball x y) as [s1 w1]
    end; exact Hr.
Qed.

Lemma wall_bounce_velocity s w :
  velocity_ok s -> velocity_ok (fst (wall_bounce s w)).
Proof.
  intros H. unfold wall_bounce.
  destruct (_ || _); cbn; auto using flip_vy_velocity.
Qed.

Lemma move_player_velocity : forall s, ball_velocity (move_player s) = ball_velocity s.
Proof. intros s. unfold move_player. block_cases; reflexivity. Qed.

Lemma tick_ai_delay_velocity : forall s, ball_velocity (tick_ai_delay s) = ball_velocity s.
Proof. intros s. unfold tick_ai_delay. block_cases; reflexivity. Qed.

Lemma move_ai_velocity : keeps ball_velocity move_ai.
Proof. intros s w. unfold move_ai, ai_decide, bind, randint, draw, ret; cbn.
       block_cases; reflexivity. Qed.

Lemma score_check_again_velocity s w :
  velocity_ok s -> velocity_ok (fst (score_check_again s w)).
Proof.
  intros H. unfold score_check_again.
  destruct (right (ball s) <? 0); [| destruct (left (ball s) >? width s)];
    auto using reset_ball_velocity.
Qed.

Lemma win_check_velocity : forall s, ball_velocity (win_check s) = ball_velocity s.
Proof. intros s. unfold win_check. block_cases; reflexivity. Qed.

Lemma finish_frame_velocity s w :
  velocity_ok s -> velocity_ok (fst (finish_frame s w)).
Proof.
  intros H. unfold finish_frame.
  apply bind_inv with (Q := velocity_ok); [now apply wall_bounce_velocity |].
  clear s w H; intros s w H.
  apply bind_inv with (Q := velocity_ok).
  { unfold velocity_ok.
    now rewrite move_ai_velocity, tick_ai_delay_velocity, move_player_velocity. }
  clear s w H; intros s w H.
  apply bind_inv with (Q := velocity_ok); [now apply score_check_again_velocity |].
  clear s w H; intros s w H.
  rewrite ret_fst. unfold velocity_ok. now rewrite win_check_velocity.
Qed.

Lemma rally_velocity s w : velocity_ok s -> velocity_ok (fst (rally s w)).
Proof.
  intros H. unfold rally.
  apply bind_inv with (Q := velocity_ok); [now apply paddle_contact_velocity |].
  clear s w H; intros s w H.
  apply bind_inv with (Q := velocity_ok); [now apply score_check_velocity |].
  clear s w H; intros s w H.
  now apply finish_frame_velocity.
Qed.

Lemma after_serve_velocity s w : velocity_ok s -> velocity_ok (fst (after_serve s w)).
Proof.
  intros H. unfold after_serve.
  destruct (wait_after_score s); [| now apply rally_velocity].
  unfold bind, get_ticks. destruct (_ <? _); [exact H |].
  now apply rally_velocity.
Qed.

Lemma update_scene_velocity s w : velocity_ok s -> velocity_ok (fst (update_scene s w)).
Proof.
  intros H. unfold update_scene.
  destruct (serve s); [| now apply after_serve_velocity].
  apply bind_inv with (Q := velocity_ok).
  { unfold start_countdown. destruct (negb _); cbn; exact H. }
  clear s w H; intros s w H.
  unfold bind, get_ticks. destruct (_ <? _); [exact H |].
  now apply after_serve_velocity.
Qed.

Lemma process_event_velocity e s : ball_velocity (process_event e s) = ball_velocity s.
Proof.
  unfold process_event.
  destruct e as [| k | k |]; cbn; block_cases; reflexivity.
Qed.

(** C8. In every state a [GameScreen] can reach, each component of the
    ball's velocity is exactly 8 or -8: the scene starts at [8, 8], contacts
    with paddles and walls only negate a component, and a reset of the ball
    assigns 8 times a sign drawn per axis. *)
Theorem ball_velocity_always_pm8 sz beep_ms sw :
  reachable sz beep_ms sw ->
  (fst (ball_velocity (fst sw)) = 8 \/ fst (ball_velocity (fst sw)) = -8) /\
  (snd (ball_velocity (fst sw)) = 8 \/ snd (ball_velocity (fst sw)) = -8).
Proof.
  intros Hr. change (velocity_ok (fst sw)).
  induction Hr as [w0 | a [s w] Hr IH].
  - unfold velocity_ok, pm8; cbn. auto.
  - destruct a as [| e]; cbn [step fst snd] in *.
    + now apply update_scene_velocity.
    + unfold velocity_ok. now rewrite process_event_velocity.
Qed.

(** The demo match when frame 234 starts: the velocity is (-8, 8). *)
Lemma ball_velocity_always_pm8_witness :
  ball_velocity (fst (demo 234)) = (-8, 8) /\
  (fst (ball_velocity (fst (demo 234))) = 8 \/
   fst (ball_velocity (fst (demo 234))) = -8) /\
  (snd (ball_velocity (fst (demo 234))) = 8 \/
   snd (ball_velocity (fst (demo 234))) = -8).
Proof.
  split; [vm_compute; reflexivity |].
  exact (ball_velocity_always_pm8 (750, 750) 3000 (demo 234)
           (demo_reachable 234)).
Defined.

(** ** What each block of the frame computes *)

Lemma bind_inv2 {A B} (Q : A * World -> Prop) (R : B * World -> Prop)
      (m : M A) (k : A -> M B) w :
  Q (m w) ->
  (forall a w', Q (a, w') -> R (k a w')) ->
  R (bind m k w).
Proof.
  intros Hm Hk. unfold bind. destruct (m w) as [a w']. apply Hk. exact Hm.
Qed.

Lemma paddle_contact_fst s w :
  fst (paddle_contact s w) = if contact s then flip_vx s else s.
Proof.
  unfold paddle_contact, contact.
  destruct (colliderect (ball s) (player s));
    [| destruct (colliderect (ball s) (ai s))]; reflexivity.
Qed.

Lemma paddle_contact_snd s w :
  same_oracles w (snd (paddle_contact s w)) /\
  played (snd (paddle_contact s w)) =
    played w ++ (if contact s then [PaddleSound] else []).
Proof.
  unfold paddle_contact, contact, same_oracles.
  destruct (colliderect (ball s) (player s));
    [| destruct (colliderect (ball s) (ai s))]; cbn;
    rewrite ?app_nil_r; auto.
Qed.

Lemma reset_ball_fst s w :
  fst (reset_ball s w) = reset_ball_with (sign_x w) (sign_y w) (reading w) s.
Proof. reflexivity. Qed.

Lemma score_check_fst s w :
  fst (score_check s w) =
    if right (ball s) <? 0 then
      reset_ai (reset_player
        (reset_ball_with (sign_x w) (sign_y w) (reading w)
           (set_ai_score (ai_score s + 1) s)))
    else if left (ball s) >? width s then
      reset_ai (reset_player
        (reset_ball_with (sign_x w) (sign_y w) (reading w)
           (set_player_score (player_score s + 1) s)))
    else s.
Proof.
  unfold score_check.
  destruct (right (ball s) <? 0); [| destruct (left (ball s) >? width s)];
    reflexivity.
Qed.

Lemma score_check_again_fst s w :
  fst (score_check_again s w) =
    if right (ball s) <? 0 then
      reset_ball_with (sign_x w) (sign_y w) (reading w)
        (set_ai_score (ai_score s + 1) s)
    else if left (ball s) >? width s then
      reset_ball_with (sign_x w) (sign_y w) (reading w)
        (set_player_score (player_score s + 1) s)
    else s.
Proof.
  unfold score_check_again.
  destruct (right (ball s) <? 0); [| destruct (left (ball s) >? width s)];
    reflexivity.
Qed.

Lemma score_check_again_in_play s w :
  in_play s -> fst (score_check_again s w) = s.
Proof.
  intros [Hr Hl]. rewrite score_check_again_fst.
  destruct (Z.ltb_spec (right (ball s)) 0); [lia |].
  destruct (Z.gtb_spec (left (ball s)) (width s)); [lia | reflexivity].
Qed.

Lemma wall_bounce_fst s w :
  fst (wall_bounce s w) = if wall_hit s then flip_vy s else s.
Proof. unfold wall_bounce, wall_hit. destruct (_ || _); reflexivity. Qed.

Lemma wall_bounce_snd s w : same_oracles w (snd (wall_bounce s w)).
Proof.
  unfold wall_bounce, same_oracles. destruct (_ || _); cbn; auto.
Qed.

Lemma move_ai_fst s w : fst (move_ai s w) = ai_decide (jitter w) s.
Proof. reflexivity. Qed.

Lemma move_player_table s : table (move_player s) = table s.
Proof. unfold move_player. block_cases; reflexivity. Qed.

Lemma tick_ai_delay_table s : table (tick_ai_delay s) = table s.
Proof. unfold tick_ai_delay. block_cases; reflexivity. Qed.

Lemma ai_decide_table r s : table (ai_decide r s) = table s.
Proof. unfold ai_decide. block_cases; reflexivity. Qed.

Lemma paddles_table r s :
  table (ai_decide r (tick_ai_delay (move_player s))) = table s.
Proof.
  now rewrite ai_decide_table, tick_ai_delay_table, move_player_table.
Qed.

Lemma table_in_play s s' : table s' = table s -> in_play s -> in_play s'.
Proof.
  unfold in_play, width. intros H.
  destruct (table_fields _ _ H) as (-> & _ & _ & _ & _ & _ & _ & _ & _ & ->).
  auto.
Qed.

(** When the ball is in play at line 227, the rest of the frame is the
    wall test, the two paddle moves and the win check. *)
Lemma finish_frame_in_play s w :
  in_play s ->
  fst (finish_frame s w) =
    win_check (ai_decide (jitter w) (tick_ai_delay
      (move_player (if wall_hit s then flip_vy s else s)))).
Proof.
  intros Hin. unfold finish_frame, bind.
  pose proof (wall_bounce_fst s w) as Hw.
  pose proof (wall_bounce_snd s w) as (_ & _ & Hr & Hd).
  destruct (wall_bounce s w) as [s1 w1]; cbn [fst snd] in *.
  pose proof (move_ai_fst (tick_ai_delay (move_player s1)) w1) as Ha.
  destruct (move_ai _ w1) as [s2 w2]; cbn [fst] in Ha.
  pose proof (score_check_again_in_play s2 w2) as Hs.
  destruct (score_check_again s2 w2) as [s3 w3]; cbn [fst] in *.
  rewrite Hs.
  - subst s2 s1. unfold jitter. now rewrite Hr, Hd.
  - subst s2. eapply table_in_play; [apply paddles_table |].
    subst s1. destruct (wall_hit s); [| exact Hin].
    unfold in_play, flip_vy, width in *; cbn; exact Hin.
Qed.

Lemma rally_unfold s w :
  rally s w =
    let r := score_check (moved s) (snd (paddle_contact s w)) in
    finish_frame (fst r) (snd r).
Proof.
  unfold rally, bind, moved. rewrite <- (paddle_contact_fst s w).
  destruct (paddle_contact s w) as [s1 w1]; cbn [fst snd].
  destruct (score_check (move_ball s1) w1); reflexivity.
Qed.

Lemma score_check_in_play s w :
  0 <= width s -> rw (ball s) = 30 -> in_play (fst (score_check s w)).
Proof.
  intros Hw Hb. rewrite score_check_fst. unfold in_play.
  destruct (Z.ltb_spec (right (ball s)) 0);
    [| destruct (Z.gtb_spec (left (ball s)) (width s))].
  3: lia.
  all: cbn; unfold right, left, width in *; cbn; rewrite ?Hb; lia.
Qed.

Lemma score_check_idle s w : in_play s -> score_check s w = (s, w).
Proof.
  intros [Hr Hl]. unfold score_check.
  destruct (Z.ltb_spec (right (ball s)) 0); [lia |].
  destruct (Z.gtb_spec (left (ball s)) (width s)); [lia | reflexivity].
Qed.

Lemma same_oracles_jitter w w' : same_oracles w w' -> jitter w' = jitter w.
Proof. intros (_ & _ & Hr & Hd). unfold jitter. now rewrite Hr, Hd. Qed.

(** A frame in which the ball stays in play. *)
Lemma rally_in_play s w :
  in_play (moved s) ->
  fst (rally s w) =
    win_check (ai_decide (jitter w) (tick_ai_delay (move_player
      (if wall_hit (moved s) then flip_vy (moved s) else moved s)))).
Proof.
  intros Hin. rewrite rally_unfold. cbv zeta.
  rewrite (score_check_idle _ _ Hin); cbn [fst snd].
  rewrite (finish_frame_in_play _ _ Hin).
  now rewrite (same_oracles_jitter _ _ (proj1 (paddle_contact_snd s w))).
Qed.

(** Any frame on a surface of non-negative width: after the first scoring
    check the ball is in play, so the second check never fires. *)
Lemma rally_fst s w :
  0 <= width s -> rw (ball s) = 30 ->
  exists w1 r,
    same_oracles w w1 /\
    let s2 := fst (score_check (moved s) w1) in
    fst (rally s w) =
      win_check (ai_decide r (tick_ai_delay (move_player
        (if wall_hit s2 then flip_vy s2 else s2)))).
Proof.
  intros Hw Hb. rewrite rally_unfold. cbv zeta.
  exists (snd (paddle_contact s w)), (jitter (snd (score_check (moved s)
                                              (snd (paddle_contact s w))))).
  split; [apply paddle_contact_snd |].
  apply finish_frame_in_play, score_check_in_play.
  - unfold moved, move_ball, width. destruct (contact s); exact Hw.
  - unfold moved, move_ball. destruct (contact s); exact Hb.
Qed.

(** ** The serve and the round delay *)

Lemma update_scene_rallying s w :
  serve s = false -> wait_after_score s = false -> update_scene s w = rally s w.
Proof. intros Hs Hw. unfold update_scene, after_serve. now rewrite Hs, Hw. Qed.

Lemma update_scene_serving s w :
  serve s = true ->
  exists w',
    played w' = played w ++ (if countdown_played s then [] else [CountdownSound]) /\
    rng w' = rng w /\ rng_draws w' = rng_draws w /\ clock w' = clock w /\
    update_scene s w =
      if countdown_pending w s then (countdown_started w s, w')
      else after_serve (set_serve false (countdown_started w s)) w'.
Proof.
  intros Hs. unfold update_scene, countdown_pending, countdown_started,
    serve_now, start_countdown, reading. rewrite Hs.
  destruct (countdown_played s); cbn.
  - exists (mkWorld (clock w) (S (clock_reads w)) (rng w) (rng_draws w) (played w)).
    cbn. rewrite app_nil_r. repeat split.
    destruct (_ <? _); reflexivity.
  - exists (mkWorld (clock w) (S (S (clock_reads w))) (rng w) (rng_draws w)
                    (played w ++ [CountdownSound])).
    cbn. repeat split.
    destruct (_ <? _); reflexivity.
Qed.

Lemma after_serve_waiting s w :
  wait_after_score s = true ->
  exists w',
    played w' = played w /\ rng w' = rng w /\ rng_draws w' = rng_draws w /\
    clock w' = clock w /\
    after_serve s w =
      if delay_pending w s then (s, w') else rally (back_to_serve s) w'.
Proof.
  intros Hw. unfold after_serve, delay_pending, back_to_serve, reading.
  rewrite Hw. cbn.
  exists (mkWorld (clock w) (S (clock_reads w)) (rng w) (rng_draws w) (played w)).
  cbn. repeat split.
  destruct (_ <? _); reflexivity.
Qed.

Lemma after_serve_rallying s w :
  wait_after_score s = false -> after_serve s w = rally s w.
Proof. intros Hw. unfold after_serve. now rewrite Hw. Qed.

(** ** What never changes *)

Lemma paddle_contact_fixed : keeps fixed paddle_contact.
Proof. intros s w. rewrite paddle_contact_fst. destruct (contact s); reflexivity. Qed.

Lemma score_check_fixed : keeps fixed score_check.
Proof. intros s w. rewrite score_check_fst. block_cases; reflexivity. Qed.

Lemma score_check_again_fixed : keeps fixed score_check_again.
Proof. intros s w. rewrite score_check_again_fst. block_cases; reflexivity. Qed.

Lemma wall_bounce_fixed : keeps fixed wall_bounce.
Proof. intros s w. rewrite wall_bounce_fst. destruct (wall_hit s); reflexivity. Qed.

Lemma move_player_fixed s : fixed (move_player s) = fixed s.
Proof. unfold move_player. block_cases; reflexivity. Qed.

Lemma tick_ai_delay_fixed s : fixed (tick_ai_delay s) = fixed s.
Proof. unfold tick_ai_delay. block_cases; reflexivity. Qed.

Lemma ai_decide_fixed r s : fixed (ai_decide r s) = fixed s.
Proof. unfold ai_decide. block_cases; reflexivity. Qed.

Lemma win_check_fixed s : fixed (win_check s) = fixed s.
Proof. unfold win_check. block_cases; reflexivity. Qed.

Lemma finish_frame_fixed : keeps fixed finish_frame.
Proof.
  intros s w. unfold finish_frame.
  apply bind_inv with (Q := fun a => fixed a = fixed s); [apply wall_bounce_fixed |].
  intros s1 w1 H1.
  apply bind_inv with (Q := fun a => fixed a = fixed s).
  { now rewrite move_ai_fst, ai_decide_fixed, tick_ai_delay_fixed, move_player_fixed. }
  intros s2 w2 H2.
  apply bind_inv with (Q := fun a => fixed a = fixed s).
  { now rewrite score_check_again_fixed. }
  intros s3 w3 H3. now rewrite ret_fst, win_check_fixed.
Qed.

Lemma rally_fixed : keeps fixed rally.
Proof.
  intros s w. rewrite rally_unfold. cbv zeta.
  rewrite finish_frame_fixed, score_check_fixed.
  unfold moved. destruct (contact s); reflexivity.
Qed.

Lemma after_serve_fixed : keeps fixed after_serve.
Proof.
  intros s w. destruct (wait_after_score s) eqn:Hw.
  - destruct (after_serve_waiting s w Hw) as (w' & _ & _ & _ & _ & ->).
    destruct (delay_pending w s); [reflexivity |].
    now rewrite rally_fixed.
  - now rewrite (after_serve_rallying s w Hw), rally_fixed.
Qed.

Lemma countdown_started_fixed w s : fixed (countdown_started w s) = fixed s.
Proof. unfold countdown_started. destruct (countdown_played s); reflexivity. Qed.

Lemma update_scene_fixed : keeps fixed update_scene.
Proof.
  intros s w. destruct (serve s) eqn:Hs.
  - destruct (update_scene_serving s w Hs) as (w' & _ & _ & _ & _ & ->).
    destruct (countdown_pending w s); cbn [fst].
    + apply countdown_started_fixed.
    + rewrite after_serve_fixed. apply countdown_started_fixed.
  - unfold update_scene. rewrite Hs. apply after_serve_fixed.
Qed.

Lemma process_event_fixed e s : fixed (process_event e s) = fixed s.
Proof.
  unfold process_event. destruct e as [| k | k |]; cbn; block_cases; reflexivity.
Qed.

Lemma reachable_fixed sz beep_ms sw :
  reachable sz beep_ms sw -> fixed (fst sw) = fixed_at sz beep_ms.
Proof.
  induction 1 as [w0 | a [s w] _ IH].
  - reflexivity.
  - destruct a as [| e]; cbn [step fst snd] in *.
    + now rewrite update_scene_fixed.
    + now rewrite process_event_fixed.
Qed.

(** ** Scores and validity *)

Lemma won_b_spec s : won_b s = true <-> won s.
Proof. unfold won_b, won. rewrite orb_true_iff, !Z.geb_le. tauto. Qed.

Lemma win_check_table s : table (win_check s) = table s.
Proof. unfold win_check. block_cases; reflexivity. Qed.

Lemma win_check_valid s :
  is_valid (win_check s) = if won_b s then false else is_valid s.
Proof. unfold win_check, won_b. block_cases; reflexivity. Qed.

Lemma move_player_valid s : is_valid (move_player s) = is_valid s.
Proof. unfold move_player. block_cases; reflexivity. Qed.

Lemma tick_ai_delay_valid s : is_valid (tick_ai_delay s) = is_valid s.
Proof. unfold tick_ai_delay. block_cases; reflexivity. Qed.

Lemma ai_decide_valid r s : is_valid (ai_decide r s) = is_valid s.
Proof. unfold ai_decide. block_cases; reflexivity. Qed.

Lemma tail_table r s :
  table (win_check (ai_decide r (tick_ai_delay (move_player s)))) = table s.
Proof. now rewrite win_check_table, paddles_table. Qed.

Lemma wall_table s :
  let s' := if wall_hit s then flip_vy s else s in
  ball s' = ball s /\ player_score s' = player_score s /\
  ai_score s' = ai_score s /\ is_valid s' = is_valid s /\
  serve s' = serve s /\ wait_after_score s' = wait_after_score s /\
  countdown_played s' = countdown_played s /\ player s' = player s /\
  ai s' = ai s /\ size s' = size s /\
  fst (ball_velocity s') = fst (ball_velocity s).
Proof. cbv zeta. destruct (wall_hit s); cbn; repeat split. Qed.

Lemma moved_table s :
  player_score (moved s) = player_score s /\ ai_score (moved s) = ai_score s /\
  is_valid (moved s) = is_valid s /\ serve (moved s) = serve s /\
  wait_after_score (moved s) = wait_after_score s /\
  countdown_played (moved s) = countdown_played s /\
  player (moved s) = player s /\ ai (moved s) = ai s /\ size (moved s) = size s /\
  player_move_up (moved s) = player_move_up s /\
  player_move_down (moved s) = player_move_down s.
Proof. unfold moved. destruct (contact s); cbn; repeat split. Qed.

(** The scores after a frame that reaches the rally. *)
Lemma rally_scores s w :
  0 <= width s -> rw (ball s) = 30 ->
  (player_score (fst (rally s w)), ai_score (fst (rally s w))) = scores_after s.
Proof.
  intros Hw Hb. destruct (rally_fst s w Hw Hb) as (w1 & r & _ & ->).
  match goal with
  | |- context [win_check (ai_decide r (tick_ai_delay (move_player ?x)))] =>
      destruct (table_fields _ _ (tail_table r x))
        as (_ & _ & -> & -> & _)
  end.
  destruct (wall_table (fst (score_check (moved s) w1))) as (_ & -> & -> & _).
  rewrite score_check_fst. unfold scores_after.
  destruct (moved_table s) as (Hp & Ha & _ & _ & _ & _ & _ & _ & Hsz & _).
  unfold width. rewrite Hsz.
  destruct (_ <? 0); [| destruct (_ >? _)]; cbn; now rewrite ?Hp, ?Ha.
Qed.

Lemma scores_after_bounds s :
  player_score s <= fst (scores_after s) /\
  ai_score s <= snd (scores_after s) /\
  fst (scores_after s) + snd (scores_after s) <= player_score s + ai_score s + 1.
Proof.
  unfold scores_after.
  destruct (_ <? 0); [| destruct (_ >? _)]; cbn; lia.
Qed.

(** The scores after any frame, whatever the phase. *)
Lemma update_scene_scores s w :
  0 <= width s -> rw (ball s) = 30 ->
  let s' := fst (update_scene s w) in
  (player_score s', ai_score s') = (player_score s, ai_score s) \/
  exists s0, (player_score s0, ai_score s0) = (player_score s, ai_score s) /\
             (player_score s', ai_score s') = scores_after s0.
Proof.
  intros Hw Hb. cbv zeta.
  assert (Hafter : forall s1 w1,
             0 <= width s1 -> rw (ball s1) = 30 ->
             (player_score (fst (after_serve s1 w1)),
              ai_score (fst (after_serve s1 w1)))
               = (player_score s1, ai_score s1) \/
             exists s0, (player_score s0, ai_score s0)
                          = (player_score s1, ai_score s1) /\
                        (player_score (fst (after_serve s1 w1)),
                         ai_score (fst (after_serve s1 w1))) = scores_after s0).
  { intros s1 w1 Hw1 Hb1. destruct (wait_after_score s1) eqn:Hwait.
    - destruct (after_serve_waiting s1 w1 Hwait) as (w' & _ & _ & _ & _ & ->).
      destruct (delay_pending w1 s1); [left; reflexivity |].
      right. exists (back_to_serve s1). split; [reflexivity |].
      now apply rally_scores.
    - rewrite (after_serve_rallying s1 w1 Hwait).
      right. exists s1. split; [reflexivity |]. now apply rally_scores. }
  destruct (serve s) eqn:Hs.
  - destruct (update_scene_serving s w Hs) as (w' & _ & _ & _ & _ & ->).
    assert (Hc : (player_score (countdown_started w s),
                  ai_score (countdown_started w s))
                 = (player_score s, ai_score s)).
    { unfold countdown_started. destruct (countdown_played s); reflexivity. }
    destruct (countdown_pending w s); cbn [fst].
    + left. exact Hc.
    + destruct (Hafter (set_serve false (countdown_started w s)) w') as [H | H].
      * unfold countdown_started, width. destruct (countdown_played s); exact Hw.
      * unfold countdown_started. destruct (countdown_played s); exact Hb.
      * left. cbn in H. rewrite H. exact Hc.
      * right. destruct H as (s0 & H0 & H1). exists s0. split; [| exact H1].
        rewrite H0. exact Hc.
  - unfold update_scene. rewrite Hs. now apply Hafter.
Qed.

(** C10. In one call of [update_scene] from a reachable state of a scene on
    a surface of non-negative width, neither score decreases and their sum
    grows by at most 1: the second out-of-bounds check (lines 258-264) finds
    the ball where the first check left it, in play or back at the centre. *)
Theorem scores_grow_by_at_most_one sz beep_ms sw :
  0 <= fst sz ->
  reachable sz beep_ms sw ->
  let s := fst sw in
  let s' := fst (update_scene s (snd sw)) in
  player_score s <= player_score s' /\
  ai_score s <= ai_score s' /\
  player_score s' + ai_score s' <= player_score s + ai_score s + 1.
Proof.
  intros Hsz Hr. cbv zeta.
  destruct (fixed_fields _ _ _ (reachable_fixed _ _ _ Hr)) as (Hs & Hb & _).
  destruct (update_scene_scores (fst sw) (snd sw)) as [H | (s0 & H0 & H1)].
  - unfold width. now rewrite Hs.
  - exact Hb.
  - inversion H. lia.
  - pose proof (scores_after_bounds s0) as Hbd.
    rewrite <- H1 in Hbd. cbn [fst snd] in Hbd. inversion H0. lia.
Qed.

(** Frame 234 of the demo match: the scores go from 0 : 2 to 0 : 3. *)
Lemma scores_grow_by_at_most_one_witness :
  let s := fst (demo 234) in
  let s' := fst (update_scene s (snd (demo 234))) in
  (player_score s = 0 /\ ai_score s = 2 /\ player_score s' = 0 /\ ai_score s' = 3) /\
  player_score s <= player_score s' /\
  ai_score s <= ai_score s' /\
  player_score s' + ai_score s' <= player_score s + ai_score s + 1.
Proof.
  cbv zeta. split; [vm_compute; repeat split |].
  assert (H0 : 0 <= fst (750, 750)) by (cbn; lia).
  exact (scores_grow_by_at_most_one (750, 750) 3000 (demo 234) H0
           (demo_reachable 234)).
Defined.

Lemma jitter_range w : -40 <= jitter w <= 40.
Proof. unfold jitter. lia. Qed.

(** The frame from line 226 on, on a surface of non-negative width. *)
Lemma rally_after_check s w :
  0 <= width s -> rw (ball s) = 30 ->
  exists r, -40 <= r <= 40 /\
    fst (rally s w) =
      win_check (ai_decide r (tick_ai_delay (move_player
        (if wall_hit (after_check s w) then flip_vy (after_check s w)
         else after_check s w)))).
Proof.
  intros Hw Hb. rewrite rally_unfold. cbv zeta. unfold after_check.
  exists (jitter (snd (score_check (moved s) (snd (paddle_contact s w))))).
  split; [apply jitter_range |].
  apply finish_frame_in_play, score_check_in_play.
  - unfold moved, move_ball, width. destruct (contact s); exact Hw.
  - unfold moved, move_ball. destruct (contact s); exact Hb.
Qed.

Lemma won_b_scores s s' :
  player_score s' = player_score s -> ai_score s' = ai_score s ->
  won_b s' = won_b s.
Proof. unfold won_b. now intros -> ->. Qed.

Lemma finish_frame_valid s w :
  let s' := fst (finish_frame s w) in
  is_valid s' = if won_b s' then false else is_valid s.
Proof.
  cbv zeta. unfold finish_frame.
  apply bind_inv with (Q := fun a => is_valid a = is_valid s).
  { rewrite wall_bounce_fst. destruct (wall_hit s); reflexivity. }
  intros s1 w1 H1.
  apply bind_inv with (Q := fun a => is_valid a = is_valid s).
  { now rewrite move_ai_fst, ai_decide_valid, tick_ai_delay_valid, move_player_valid. }
  intros s2 w2 H2.
  apply bind_inv with (Q := fun a => is_valid a = is_valid s).
  { rewrite score_check_again_fst. block_cases; exact H2. }
  intros s3 w3 H3. rewrite ret_fst, win_check_valid, H3.
  destruct (table_fields _ _ (win_check_table s3)) as (_ & _ & Hp & Ha & _).
  now rewrite (won_b_scores _ _ Hp Ha).
Qed.

Lemma rally_valid s w :
  let s' := fst (rally s w) in
  is_valid s' = if won_b s' then false else is_valid s.
Proof.
  cbv zeta. rewrite rally_unfold. cbv zeta. rewrite finish_frame_valid.
  replace (is_valid (fst (score_check (moved s) (snd (paddle_contact s w)))))
    with (is_valid s); [reflexivity |].
  rewrite score_check_fst.
  destruct (moved_table s) as (_ & _ & Hv & _).
  block_cases; cbn; exact (eq_sym Hv).
Qed.

(** A frame either leaves scores and validity as they were (it returned
    while a wait was pending) or ends with the win check of line 267. *)
Lemma update_scene_valid s w :
  let s' := fst (update_scene s w) in
  (is_valid s' = is_valid s /\ player_score s' = player_score s /\
   ai_score s' = ai_score s) \/
  is_valid s' = (if won_b s' then false else is_valid s).
Proof.
  cbv zeta.
  assert (Hafter : forall s1 w1,
             (is_valid (fst (after_serve s1 w1)) = is_valid s1 /\
              player_score (fst (after_serve s1 w1)) = player_score s1 /\
              ai_score (fst (after_serve s1 w1)) = ai_score s1) \/
             is_valid (fst (after_serve s1 w1)) =
               (if won_b (fst (after_serve s1 w1)) then false else is_valid s1)).
  { intros s1 w1. destruct (wait_after_score s1) eqn:Hwait.
    - destruct (after_serve_waiting s1 w1 Hwait) as (w' & _ & _ & _ & _ & ->).
      destruct (delay_pending w1 s1); [left; repeat split |].
      right. apply (rally_valid (back_to_serve s1) w').
    - rewrite (after_serve_rallying s1 w1 Hwait). right. apply rally_valid. }
  destruct (serve s) eqn:Hs.
  - destruct (update_scene_serving s w Hs) as (w' & _ & _ & _ & _ & ->).
    assert (Hc : is_valid (countdown_started w s) = is_valid s /\
                 player_score (countdown_started w s) = player_score s /\
                 ai_score (countdown_started w s) = ai_score s).
    { unfold countdown_started. destruct (countdown_played s); repeat split. }
    destruct (countdown_pending w s); cbn [fst]; [left; exact Hc |].
    destruct Hc as (Hv & Hp & Ha).
    destruct (Hafter (set_serve false (countdown_started w s)) w')
      as [(H1 & H2 & H3) | H]; cbn in *.
    + left. now rewrite H1, H2, H3.
    + right. now rewrite H, Hv.
  - unfold update_scene. rewrite Hs. apply Hafter.
Qed.

Lemma process_event_scores e s :
  is_valid (process_event e s) = is_valid s /\
  player_score (process_event e s) = player_score s /\
  ai_score (process_event e s) = ai_score s.
Proof.
  unfold process_event. destruct e as [| k | k |]; cbn; block_cases; repeat split.
Qed.

(** In every reachable state a score of 3 goes with an invalid scene. *)
Lemma reachable_won_invalid sz beep_ms sw :
  reachable sz beep_ms sw -> won (fst sw) -> is_valid (fst sw) = false.
Proof.
  induction 1 as [w0 | a [s w] _ IH]; intros Hwon.
  - unfold won in Hwon; cbn in Hwon. lia.
  - destruct a as [| e]; cbn [step fst snd] in *.
    + destruct (update_scene_valid s w) as [(Hv & Hp & Ha) | Hv].
      * rewrite Hv. apply IH. unfold won in *. now rewrite <- Hp, <- Ha.
      * rewrite Hv. apply won_b_spec in Hwon. now rewrite Hwon.
    + destruct (process_event_scores e s) as (Hv & Hp & Ha).
      rewrite Hv. apply IH. unfold won in *. now rewrite <- Hp, <- Ha.
Qed.

Lemma phase_rallying s :
  phase s = Rallying -> serve s = false /\ wait_after_score s = false.
Proof.
  unfold phase. destruct (serve s), (wait_after_score s); intros H;
    try discriminate H; auto.
Qed.

(** C1, as amended.  From every reachable state of a scene on a surface of
    non-negative width: after an [update_scene] call a score of 3 or more
    goes with [is_valid = false]; an invalid scene stays invalid under
    [update_scene] and under every event; events change neither score; and
    when the ball passes [right < 0] in a rally with the AI score at 2, the
    call ends with the AI score at 3 and the scene invalid.  Nothing is said
    about the scores of later [update_scene] calls: the method does not look
    at [is_valid]. *)
Theorem match_ends_at_three sz beep_ms sw :
  0 <= fst sz ->
  reachable sz beep_ms sw ->
  let s := fst sw in
  let s' := fst (update_scene s (snd sw)) in
  (3 <= player_score s' \/ 3 <= ai_score s' -> is_valid s' = false) /\
  (is_valid s = false -> is_valid s' = false) /\
  (forall e, is_valid (process_event e s) = is_valid s /\
             player_score (process_event e s) = player_score s /\
             ai_score (process_event e s) = ai_score s) /\
  (phase s = Rallying -> right (ball (moved s)) < 0 -> ai_score s = 2 ->
   ai_score s' = 3 /\ is_valid s' = false).
Proof.
  intros Hsz Hr. cbv zeta.
  destruct (fixed_fields _ _ _ (reachable_fixed _ _ _ Hr)) as (Hs & Hb & _).
  destruct sw as [s w]; cbn [fst snd] in *.
  split; [| split; [| split]].
  - apply (reachable_won_invalid sz beep_ms (step Frame (s, w))).
    now apply reach_step.
  - intros Hv.
    destruct (update_scene_valid s w) as [(H & _) | H]; rewrite H, ?Hv.
    + reflexivity.
    + now destruct (won_b _).
  - intros e. apply process_event_scores.
  - intros Hph Hball Hai.
    destruct (phase_rallying s Hph) as (Hserve & Hwait).
    rewrite (update_scene_rallying s w Hserve Hwait).
    assert (Hsc : (player_score (fst (rally s w)), ai_score (fst (rally s w)))
                  = scores_after s).
    { apply rally_scores; [unfold width; now rewrite Hs | exact Hb]. }
    unfold scores_after in Hsc.
    destruct (Z.ltb_spec (right (ball (moved s))) 0); [| lia].
    inversion Hsc as [[Hp Ha]].
    split; [lia |].
    rewrite rally_valid. unfold won_b. rewrite Ha, Hai. cbn.
    now rewrite orb_true_r.
Qed.

(** The scenario of C1 in the demo match: frame 234 starts in a rally with
    the AI score at 2 and the ball about to pass the left edge. *)
Lemma match_ends_at_three_witness :
  let s := fst (demo 234) in
  let s' := fst (update_scene s (snd (demo 234))) in
  (phase s = Rallying /\ right (ball (moved s)) < 0 /\ ai_score s = 2) /\
  ai_score s' = 3 /\ is_valid s' = false.
Proof.
  cbv zeta.
  assert (H0 : 0 <= fst (750, 750)) by (cbn; lia).
  assert (H1 : phase (fst (demo 234)) = Rallying) by (vm_compute; reflexivity).
  assert (H2 : right (ball (moved (fst (demo 234)))) < 0)
    by (vm_compute; reflexivity).
  assert (H3 : ai_score (fst (demo 234)) = 2) by (vm_compute; reflexivity).
  split; [repeat split; assumption |].
  exact (proj2 (proj2 (proj2
           (match_ends_at_three (750, 750) 3000 (demo 234) H0
              (demo_reachable 234)))) H1 H2 H3).
Defined.

(** C1 as stated fails: [update_scene] does not test [is_valid].  In the
    demo match the scene is invalid with the AI score at 3 when frame 285
    starts, and that frame raises the AI score to 4. *)
Lemma score_changes_after_invalidation :
  let s := fst (demo 285) in
  let s' := fst (update_scene s (snd (demo 285))) in
  reachable (750, 750) 3000 (demo 285) /\
  is_valid s = false /\ ai_score s = 3 /\ ai_score s' = 4.
Proof.
  cbv zeta. split; [apply demo_reachable |].
  vm_compute. repeat split.
Qed.

(** ** A scoring event *)

Lemma tail_player r s :
  player (win_check (ai_decide r (tick_ai_delay (move_player s))))
  = player (move_player s).
Proof.
  unfold win_check, ai_decide, tick_ai_delay. block_cases; reflexivity.
Qed.

Lemma tail_ai r s :
  ai (win_check (ai_decide r (tick_ai_delay (move_player s))))
  = ai (ai_decide r s).
Proof.
  unfold win_check, ai_decide, tick_ai_delay, move_player, height.
  cbn. block_cases; cbn in *; congruence.
Qed.

Lemma move_player_flip_vy s : player (move_player (flip_vy s)) = player (move_player s).
Proof.
  unfold move_player, flip_vy, height. cbn.
  destruct (player_move_up s && _); cbn; destruct (player_move_down s && _);
    reflexivity.
Qed.

Lemma ai_decide_flip_vy r s : ai (ai_decide r (flip_vy s)) = ai (ai_decide r s).
Proof. unfold ai_decide, flip_vy, height. cbn. block_cases; reflexivity. Qed.


(** The scene at line 226 when the first check scores. *)
Lemma after_check_scored s w :
  ~ in_play (moved s) ->
  after_check s w =
    reset_ai (reset_player (reset_ball_with (sign_x w) (sign_y w) (reading w)
      (if right (ball (moved s)) <? 0
       then set_ai_score (ai_score s + 1) (moved s)
       else set_player_score (player_score s + 1) (moved s)))).
Proof.
  intros Hout. unfold after_check. rewrite score_check_fst.
  destruct (paddle_contact_snd s w) as ((Hc & Hcr & Hr & Hd) & _).
  unfold sign_x, sign_y, reading. rewrite Hc, Hcr, Hr, Hd.
  destruct (moved_table s) as (Hp & Ha & _).
  destruct (Z.ltb_spec (right (ball (moved s))) 0).
  - now rewrite Ha.
  - destruct (Z.gtb_spec (left (ball (moved s))) (width (moved s))).
    + now rewrite Hp.
    + exfalso. apply Hout. split; assumption.
Qed.

Lemma moved_fixed s : fixed (moved s) = fixed s.
Proof. unfold moved. destruct (contact s); reflexivity. Qed.

Lemma sign_of_cases r : sign_of r = -1 \/ sign_of r = 1.
Proof. unfold sign_of. destruct (_ =? _); auto. Qed.

Lemma scored_fields sx sy t x :
  let s1 := reset_ai (reset_player (reset_ball_with sx sy t x)) in
  ball s1 = mkRect (fst (size x) / 2 - 15) (snd (size x) / 2 - 15)
                   (rw (ball x)) (rh (ball x)) /\
  player s1 = mkRect 30 (snd (size x) / 2 - 80) (rw (player x)) (rh (player x)) /\
  ai s1 = mkRect (fst (size x) - 40) (snd (size x) / 2 - 80)
                 (rw (ai x)) (rh (ai x)) /\
  ball_velocity s1 = (8 * sx, 8 * sy) /\
  wait_after_score s1 = true /\ serve s1 = serve x /\ size s1 = size x /\
  score_time s1 = t /\
  player_score s1 = player_score x /\ ai_score s1 = ai_score x.
Proof. cbv zeta. repeat split. Qed.

(** Everything the first scoring check assigns. *)
Lemma after_check_scored_fields sz beep_ms s w :
  fixed s = fixed_at sz beep_ms ->
  ~ in_play (moved s) ->
  let s1 := after_check s w in
  ball s1 = mkRect (fst sz / 2 - 15) (snd sz / 2 - 15) 30 30 /\
  player s1 = mkRect 30 (snd sz / 2 - 80) 20 180 /\
  ai s1 = mkRect (fst sz - 40) (snd sz / 2 - 80) 20 180 /\
  ball_velocity s1 = (8 * sign_x w, 8 * sign_y w) /\
  wait_after_score s1 = true /\ serve s1 = serve s /\ size s1 = sz /\
  score_time s1 = reading w /\
  (player_score s1, ai_score s1) =
    (if right (ball (moved s)) <? 0 then (player_score s, ai_score s + 1)
     else (player_score s + 1, ai_score s)).
Proof.
  intros Hf Hout. cbv zeta. rewrite (after_check_scored s w Hout).
  rewrite <- moved_fixed in Hf.
  destruct (fixed_fields _ _ _ Hf)
    as (Hs & Hbw & Hbh & Hpw & Hph & Haw & Hah & _).
  destruct (moved_table s) as (Hp & Ha & _ & Hserve & _).
  clear Hf Hout. revert Hs Hbw Hbh Hpw Hph Haw Hah Hp Ha Hserve.
  generalize (moved s) as m. intros m Hs Hbw Hbh Hpw Hph Haw Hah Hp Ha Hserve.
  match goal with
  | |- context [reset_ball_with ?sx ?sy ?t ?x] =>
      destruct (scored_fields sx sy t x)
        as (-> & -> & -> & -> & -> & -> & -> & -> & -> & ->)
  end.
  destruct (right (ball m) <? 0); cbn [size ball player ai serve player_score
    ai_score set_ai_score set_player_score];
    rewrite ?Hs, ?Hbw, ?Hbh, ?Hpw, ?Hph, ?Haw, ?Hah, ?Hp, ?Ha, ?Hserve;
    repeat split.
Qed.



(** ** Paddle contact *)

Lemma moved_velocity_x s :
  fst (ball_velocity (moved s)) =
    if contact s then fst (ball_velocity s) * -1 else fst (ball_velocity s).
Proof. unfold moved. destruct (contact s); reflexivity. Qed.

(** C7. The contact test looks at the player paddle first and at the AI
    paddle only when the ball does not touch the player paddle, so the
    horizontal velocity is negated at most once per frame: after the block
    of lines 202-208 it is the old one negated when the ball touches at
    least one paddle (also when it touches both, with a single hit sound)
    and the old one otherwise; and a rally frame that keeps the ball in play
    returns with exactly that horizontal velocity. *)
Theorem paddle_contact_flips_once s w :
  (fst (ball_velocity (fst (paddle_contact s w))) =
     if colliderect (ball s) (player s) then fst (ball_velocity s) * -1
     else if colliderect (ball s) (ai s) then fst (ball_velocity s) * -1
     else fst (ball_velocity s)) /\
  (colliderect (ball s) (player s) = true ->
   colliderect (ball s) (ai s) = true ->
   fst (ball_velocity (fst (paddle_contact s w))) = - fst (ball_velocity s) /\
   played (snd (paddle_contact s w)) = played w ++ [PaddleSound]) /\
  (phase s = Rallying -> in_play (moved s) ->
   fst (ball_velocity (fst (update_scene s w))) =
     if colliderect (ball s) (player s) || colliderect (ball s) (ai s)
     then - fst (ball_velocity s) else fst (ball_velocity s)).
Proof.
  split; [| split].
  - unfold paddle_contact.
    destruct (colliderect (ball s) (player s));
      [| destruct (colliderect (ball s) (ai s))]; reflexivity.
  - intros Hp Ha. unfold paddle_contact. rewrite Hp. cbn. split; [lia | reflexivity].
  - intros Hph Hin.
    destruct (phase_rallying s Hph) as (Hserve & Hwait).
    rewrite (update_scene_rallying s w Hserve Hwait), (rally_in_play s w Hin).
    match goal with
    | |- context [win_check (ai_decide ?r (tick_ai_delay (move_player ?x)))] =>
        destruct (table_fields _ _ (tail_table r x)) as (_ & -> & _)
    end.
    destruct (wall_table (moved s)) as (_ & _ & _ & _ & _ & _ & _ & _ & _ & _ & ->).
    rewrite moved_velocity_x. fold (contact s).
    destruct (contact s); lia.
Qed.

(** On a surface 60 wide the ball overlaps both paddles; the frame negates
    the horizontal velocity once: 8 becomes -8. *)
Lemma paddle_contact_flips_once_witness :
  (colliderect (ball narrow_scene) (player narrow_scene) = true /\
   colliderect (ball narrow_scene) (ai narrow_scene) = true /\
   fst (ball_velocity narrow_scene) = 8) /\
  fst (ball_velocity (fst (paddle_contact narrow_scene demo_world))) = -8 /\
  fst (ball_velocity (fst (update_scene narrow_scene demo_world))) = -8.
Proof.
  assert (Hp : colliderect (ball narrow_scene) (player narrow_scene) = true)
    by (vm_compute; reflexivity).
  assert (Ha : colliderect (ball narrow_scene) (ai narrow_scene) = true)
    by (vm_compute; reflexivity).
  assert (Hph : phase narrow_scene = Rallying) by (vm_compute; reflexivity).
  assert (Hin : in_play (moved narrow_scene)).
  { unfold in_play. vm_compute. split; discriminate. }
  destruct (paddle_contact_flips_once narrow_scene demo_world) as (_ & H2 & H3).
  split; [repeat split; try assumption; vm_compute; reflexivity |].
  split.
  - exact (proj1 (H2 Hp Ha)).
  - rewrite (H3 Hph Hin), Hp. reflexivity.
Defined.

(** ** Events *)

(** C5, at a failing input.  An escape key-down and a quit event delivered
    to a [GameScreen] leave it valid: [GameScreen.process_event] (lines
    288-299) overrides the handler of the base class and never calls it.
    The base handler (lines 32-39) sets [is_valid] to false on both events,
    and the two other overrides (lines 76-80 and 332-336) call it first, so
    their scenes close on both.  In the demo match the scene is valid when
    frame 5 starts, and it is still valid after either event and after the
    frame that follows.  The rest is as the handler is written: a key-down
    of W or Up makes [player_move_up] true, of S or Down makes
    [player_move_down] true, the key-up of the same key makes the flag
    false, a key of one direction leaves the flag of the other as it was,
    no event changes [is_valid], and a frame changes [is_valid] only to
    false and only with a score of 3 or more. *)
Theorem game_screen_ignores_quit_and_escape
        (s : GameScreen) (base : Scene.t) (out : list string) :
  (is_valid (fst (demo 5)) = true /\
   is_valid (process_event (KEYDOWN K_ESCAPE) (fst (demo 5))) = true /\
   is_valid (process_event QUIT (fst (demo 5))) = true /\
   is_valid (fst (run [Input (KEYDOWN K_ESCAPE); Frame] (demo 5))) = true /\
   is_valid (fst (run [Input QUIT; Frame] (demo 5))) = true) /\
  (is_valid (process_event (KEYDOWN K_ESCAPE) s) = is_valid s /\
   is_valid (process_event QUIT s) = is_valid s) /\
  (Scene.is_valid (fst (Scene.process_event (KEYDOWN K_ESCAPE) base out))
   = false /\
   Scene.is_valid (fst (Scene.process_event QUIT base out)) = false /\
   Scene.is_valid
     (fst (PressAnyKeyToExitScene_process_event (KEYDOWN K_ESCAPE) base out))
   = false /\
   Scene.is_valid (fst (PressAnyKeyToExitScene_process_event QUIT base out))
   = false /\
   Scene.is_valid (fst (GameOver_process_event (KEYDOWN K_ESCAPE) base out))
   = false /\
   Scene.is_valid (fst (GameOver_process_event QUIT base out)) = false) /\
  (player_move_up (process_event (KEYDOWN K_w) s) = true /\
   player_move_up (process_event (KEYDOWN K_UP) s) = true /\
   player_move_down (process_event (KEYDOWN K_s) s) = true /\
   player_move_down (process_event (KEYDOWN K_DOWN) s) = true /\
   player_move_up (process_event (KEYUP K_w) s) = false /\
   player_move_up (process_event (KEYUP K_UP) s) = false /\
   player_move_down (process_event (KEYUP K_s) s) = false /\
   player_move_down (process_event (KEYUP K_DOWN) s) = false) /\
  (player_move_down (process_event (KEYDOWN K_w) s) = player_move_down s /\
   player_move_down (process_event (KEYDOWN K_UP) s) = player_move_down s /\
   player_move_up (process_event (KEYDOWN K_s) s) = player_move_up s /\
   player_move_up (process_event (KEYDOWN K_DOWN) s) = player_move_up s /\
   player_move_down (process_event (KEYUP K_w) s) = player_move_down s /\
   player_move_down (process_event (KEYUP K_UP) s) = player_move_down s /\
   player_move_up (process_event (KEYUP K_s) s) = player_move_up s /\
   player_move_up (process_event (KEYUP K_DOWN) s) = player_move_up s) /\
  (player_move_up (fst (demo 5)) = false /\
   player_move_up (process_event (KEYDOWN K_w) (fst (demo 5))) = true /\
   player_move_up
     (process_event (KEYUP K_w) (process_event (KEYDOWN K_w) (fst (demo 5))))
   = false /\
   player_move_down (fst (demo 5)) = false /\
   player_move_down (process_event (KEYDOWN K_DOWN) (fst (demo 5))) = true /\
   player_move_down
     (process_event (KEYUP K_DOWN)
        (process_event (KEYDOWN K_DOWN) (fst (demo 5))))
   = false) /\
  (forall e, is_valid (process_event e s) = is_valid s) /\
  (forall w,
      is_valid (fst (update_scene s w)) = is_valid s \/
      (is_valid (fst (update_scene s w)) = false /\
       (3 <= player_score (fst (update_scene s w)) \/
        3 <= ai_score (fst (update_scene s w))))).
Proof.
  split; [| split; [| split; [| split; [| split; [| split; [| split]]]]]].
  - vm_compute. repeat split.
  - split; reflexivity.
  - repeat split.
  - repeat split.
  - repeat split.
  - vm_compute. repeat split.
  - intros e. exact (proj1 (process_event_scores e s)).
  - intros w.
    destruct (update_scene_valid s w) as [(H & _) | H]; [now left |].
    destruct (won_b (fst (update_scene s w))) eqn:Hw; [| now left].
    right. split; [exact H |]. now apply won_b_spec in Hw.
Qed.

(** ** The AI paddle *)

(** What the two tests of lines 247-256 compare: the upward test uses the
    centre of the ball, the downward test its top edge. *)
Lemma ai_decide_cases r s :
  ai_decide r s =
    if (centery (ball s) + r <? centery (ai s) - 60) && (top (ai s) >? 0)
    then set_ai (set_y (ry (ai s) - ai_speed s) (ai s)) s
    else if (top (ball s) + r >? centery (ai s) + 60)
            && (bottom (ai s) <? height s)
    then set_ai (set_y (ry (ai s) + ai_speed s) (ai s)) s
    else s.
Proof. reflexivity. Qed.

(** C6, at a failing input.  Frame 11 of the demo match is a rally frame
    with jitter 0.  The moved ball has its centre at 455 and the AI paddle
    its centre at 385 with room below: the jittered target is 70 below the
    paddle centre, more than the dead zone of 60, yet the paddle stays where
    it is, because line 253 adds the jitter to the top edge of the ball
    (440) and not to its centre. *)
Theorem ai_down_test_uses_ball_top :
  let s := fst (demo 11) in
  let w := snd (demo 11) in
  let s' := fst (update_scene s w) in
  phase s = Rallying /\ jitter w = 0 /\
  centery (ball (moved s)) + jitter w = 455 /\
  centery (ai s) = 385 /\
  bottom (ai s) < height s /\
  top (ball (moved s)) + jitter w = 440 /\
  ai s' = ai s.
Proof. cbv zeta. vm_compute. repeat split. Qed.

(** ** Starting a scene *)

(** C9. For a scene whose soundtrack is a non-empty path, [start_scene]
    ends in [SystemExit] exactly when loading the track fails.  It then has
    printed the arguments of the error joined by newlines and has asked the
    channel for one load and nothing else: no second attempt.  When the
    load succeeds it returns after setting the volume and starting the track
    with [loops = -1], that is, looped. *)
Theorem start_scene_exits_iff_load_fails (self : Scene.t) (m : Scene.Mixer) path :
  Scene.soundtrack self = Some path ->
  path <> ""%string ->
  let r := Scene.start_scene self m in
  ((exists msg, fst r = Scene.SystemExit msg) <-> Scene.load_error m path <> None) /\
  (forall args, Scene.load_error m path = Some args ->
     fst r = Scene.SystemExit "broken!!" /\
     Scene.stdout (snd r) = Scene.stdout m ++ [String.concat Scene.newline args] /\
     Scene.calls (snd r) = Scene.calls m ++ [Scene.CallLoad path]) /\
  (Scene.load_error m path = None ->
     fst r = Scene.Returned /\
     Scene.stdout (snd r) = Scene.stdout m /\
     Scene.calls (snd r) =
       Scene.calls m ++ [Scene.CallLoad path; Scene.CallSetVolume 10;
                         Scene.CallPlay (-1) 500]).
Proof.
  intros Ht Hne. cbv zeta. unfold Scene.start_scene. rewrite Ht.
  assert (Htruthy : Scene.truthy (Some path) = true).
  { cbn. destruct (String.eqb_spec path ""); [contradiction | reflexivity]. }
  rewrite Htruthy.
  destruct (Scene.load_error m path) as [args |] eqn:Hl; cbn.
  - split; [| split].
    + split; [discriminate | intros _; eexists; reflexivity].
    + intros a Ha. injection Ha as <-. repeat split.
    + discriminate.
  - split; [| split].
    + split; [intros [msg Hm]; discriminate Hm | intros H; now elim H].
    + discriminate.
    + intros _. repeat split. rewrite <- !app_assoc. reflexivity.
Qed.

(** The soundtrack of the game on a channel that cannot load it, and on one
    that can. *)
Lemma start_scene_exits_iff_load_fails_witness :
  fst (Scene.start_scene (Scene.init (Some "assets/sounds/gameplay.mp3"%string))
         broken_mixer) = Scene.SystemExit "broken!!" /\
  fst (Scene.start_scene (Scene.init (Some "assets/sounds/gameplay.mp3"%string))
         sound_mixer) = Scene.Returned.
Proof.
  assert (Hne : "assets/sounds/gameplay.mp3"%string <> ""%string) by discriminate.
  split.
  - exact (proj1 (proj1 (proj2
      (start_scene_exits_iff_load_fails
         (Scene.init (Some "assets/sounds/gameplay.mp3"%string)) broken_mixer
         _ eq_refl Hne)) _ eq_refl)).
  - exact (proj1 (proj2 (proj2
      (start_scene_exits_iff_load_fails
         (Scene.init (Some "assets/sounds/gameplay.mp3"%string)) sound_mixer
         _ eq_refl Hne)) eq_refl)).
Defined.

(** ** The countdown sound, the serve and the round delay *)










(** The two flags of the serve are not written by the rally. *)
Lemma rally_serve_flags s w :
  serve (fst (rally s w)) = serve s /\
  countdown_played (fst (rally s w)) = countdown_played s.
Proof.
  assert (H : (serve (fst (rally s w)), countdown_played (fst (rally s w)))
              = (serve s, countdown_played s)).
  { rewrite rally_unfold. cbv zeta. unfold finish_frame.
    set (s1 := fst (score_check (moved s) (snd (paddle_contact s w)))).
    assert (H1 : (serve s1, countdown_played s1) = (serve s, countdown_played s)).
    { subst s1. rewrite score_check_fst.
      destruct (moved_table s) as (_ & _ & _ & Hs & _ & Hc & _).
      block_cases; cbn; now rewrite Hs, Hc. }
    apply bind_inv with
      (Q := fun a => (serve a, countdown_played a) = (serve s, countdown_played s)).
    { rewrite wall_bounce_fst. destruct (wall_hit s1); exact H1. }
    intros s2 w2 H2.
    apply bind_inv with
      (Q := fun a => (serve a, countdown_played a) = (serve s, countdown_played s)).
    { rewrite move_ai_fst.
      destruct (table_fields _ _ (paddles_table (jitter w2) s2))
        as (_ & _ & _ & _ & -> & _ & -> & _). exact H2. }
    intros s3 w3 H3.
    apply bind_inv with
      (Q := fun a => (serve a, countdown_played a) = (serve s, countdown_played s)).
    { rewrite score_check_again_fst. block_cases; exact H3. }
    intros s4 w4 H4. rewrite ret_fst.
    destruct (table_fields _ _ (win_check_table s4))
      as (_ & _ & _ & _ & -> & _ & -> & _). exact H4. }
  inversion H. auto.
Qed.

Lemma phase_scored_waiting s :
  phase s = ScoredWaiting -> serve s = false /\ wait_after_score s = true.
Proof.
  unfold phase. destruct (serve s), (wait_after_score s); intros H;
    try discriminate H; auto.
Qed.




(** ** How far paddles and ball can leave the surface *)

Lemma move_player_near s :
  0 < player_speed s ->
  - player_speed s < ry (player s) < height s - rh (player s) + player_speed s ->
  - player_speed s < ry (player (move_player s))
    < height s - rh (player (move_player s)) + player_speed s.
Proof.
  intros Hsp Hy. unfold move_player, top, bottom, height in *.
  destruct (player_move_up s); cbn [andb].
  - destruct (Z.gtb_spec (ry (player s)) 0); cbn;
      destruct (player_move_down s); cbn [andb]; cbn.
    + destruct (Z.ltb_spec (ry (player s) - player_speed s + rh (player s))
                           (snd (size s))); cbn; lia.
    + lia.
    + destruct (Z.ltb_spec (ry (player s) + rh (player s)) (snd (size s)));
        cbn; lia.
    + lia.
  - destruct (player_move_down s); cbn [andb]; [| lia].
    destruct (Z.ltb_spec (ry (player s) + rh (player s)) (snd (size s)));
      cbn; lia.
Qed.

Lemma ai_decide_near r s :
  0 < ai_speed s ->
  - ai_speed s < ry (ai s) < height s - rh (ai s) + ai_speed s ->
  - ai_speed s < ry (ai (ai_decide r s))
    < height s - rh (ai (ai_decide r s)) + ai_speed s.
Proof.
  intros Hsp Hy. unfold ai_decide, top, bottom, height in *.
  destruct (_ <? _); cbn [andb].
  - destruct (Z.gtb_spec (ry (ai s)) 0); cbn; [lia |].
    destruct (_ >? _); cbn [andb]; [| lia].
    destruct (Z.ltb_spec (ry (ai s) + rh (ai s)) (snd (size s))); cbn; lia.
  - destruct (_ >? _); cbn [andb]; [| lia].
    destruct (Z.ltb_spec (ry (ai s) + rh (ai s)) (snd (size s))); cbn; lia.
Qed.

Lemma wall_near s :
  rh (ball s) = 30 -> ball_arrived s ->
  ball_near (if wall_hit s then flip_vy s else s).
Proof.
  intros Hh Harr. unfold wall_hit, bottom, top, ball_arrived, ball_near in *.
  rewrite Hh.
  destruct (Z.geb_spec (ry (ball s) + 30) (height s));
    destruct (Z.leb_spec (ry (ball s)) 0); cbn; unfold height in *; cbn; lia.
Qed.

Lemma moved_arrived s :
  velocity_ok s -> ball_near s -> ball_arrived (moved s).
Proof.
  intros (_ & Hvy) Hb. unfold ball_arrived, ball_near, velocity_ok, pm8, moved in *.
  destruct (contact s); unfold height in *; cbn; lia.
Qed.

Lemma moved_paddles s : paddles_near s -> paddles_near (moved s).
Proof.
  unfold paddles_near, moved, height. destruct (contact s); cbn; auto.
Qed.

Lemma after_check_court sz beep_ms s w :
  fixed s = fixed_at sz beep_ms -> 0 <= fst sz -> 184 <= snd sz ->
  court_ok s ->
  paddles_near (after_check s w) /\ ball_arrived (after_check s w).
Proof.
  intros Hf Hw Hh (Hv & Hp & Hb).
  assert (Hf1 : fixed (after_check s w) = fixed_at sz beep_ms).
  { unfold after_check. now rewrite score_check_fixed, moved_fixed. }
  destruct (fixed_fields _ _ _ Hf1)
    as (Hs1 & _ & _ & _ & Hph1 & _ & Hah1 & Hps1 & Has1 & _).
  assert (Hscored : ~ in_play (moved s) ->
            paddles_near (after_check s w) /\ ball_arrived (after_check s w)).
  { intros Hout.
    destruct (after_check_scored_fields sz beep_ms s w Hf Hout)
      as (Hb1 & Hp1 & Ha1 & Hv1 & _).
    unfold paddles_near, ball_arrived, height.
    rewrite Hs1, Hph1, Hah1, Hps1, Has1, Hp1, Ha1, Hb1, Hv1. cbn.
    split; [lia |]. unfold sign_y.
    destruct (sign_of_cases (rng w (S (rng_draws w)))) as [-> | ->];
      [right | left]; lia. }
  destruct (Z.ltb_spec (right (ball (moved s))) 0) as [Hout | Hin1].
  { apply Hscored. unfold in_play. lia. }
  destruct (Z.gtb_spec (left (ball (moved s))) (width (moved s))) as [Hout | Hin2].
  { apply Hscored. unfold in_play. lia. }
  unfold after_check. rewrite score_check_idle by (split; lia). cbn [fst].
  split; [now apply moved_paddles | now apply moved_arrived].
Qed.

Lemma rally_court sz beep_ms s w :
  fixed s = fixed_at sz beep_ms -> 0 <= fst sz -> 184 <= snd sz ->
  court_ok s -> court_ok (fst (rally s w)).
Proof.
  intros Hf Hw Hh Hc.
  destruct (after_check_court sz beep_ms s w Hf Hw Hh Hc) as (Hp1 & Hb1).
  destruct Hc as (Hv & _).
  pose proof (rally_velocity s w Hv) as Hv'.
  pose proof (rally_fixed s w) as Hf'. rewrite Hf in Hf'.
  destruct (fixed_fields _ _ _ Hf) as (Hs & Hbw & _).
  destruct (rally_after_check s w) as (r & Hr & Heq);
    [unfold width; now rewrite Hs | exact Hbw |].
  rewrite Heq in *. clear Heq.
  destruct (fixed_fields _ _ _ Hf')
    as (Hs' & _ & _ & _ & Hph' & _ & Hah' & Hps' & Has' & _).
  assert (Hf1 : fixed (after_check s w) = fixed_at sz beep_ms).
  { unfold after_check. now rewrite score_check_fixed, moved_fixed. }
  revert Hp1 Hb1 Hf1 Hv' Hs' Hph' Hah' Hps' Has'.
  generalize (after_check s w) as s1.
  intros s1 Hp1 Hb1 Hf1 Hv' Hs' Hph' Hah' Hps' Has'.
  destruct (fixed_fields _ _ _ Hf1)
    as (Hs1 & _ & Hbh1 & _ & Hph1 & _ & Hah1 & Hps1 & Has1 & _).
  split; [exact Hv' | split].
  - unfold paddles_near, height. rewrite Hs', Hph', Hah', Hps', Has'.
    rewrite tail_player, tail_ai.
    replace (player (move_player (if wall_hit s1 then flip_vy s1 else s1)))
      with (player (move_player s1))
      by (destruct (wall_hit s1);
          [symmetry; apply move_player_flip_vy | reflexivity]).
    replace (ai (ai_decide r (if wall_hit s1 then flip_vy s1 else s1)))
      with (ai (ai_decide r s1))
      by (destruct (wall_hit s1);
          [symmetry; apply ai_decide_flip_vy | reflexivity]).
    destruct Hp1 as (Hpl & Hai).
    pose proof (move_player_near s1) as Hmp.
    pose proof (ai_decide_near r s1) as Had.
    pose proof (move_player_fixed s1) as Hfm. rewrite Hf1 in Hfm.
    pose proof (ai_decide_fixed r s1) as Hfa. rewrite Hf1 in Hfa.
    destruct (fixed_fields _ _ _ Hfm) as (_ & _ & _ & _ & Hphm & _).
    destruct (fixed_fields _ _ _ Hfa) as (_ & _ & _ & _ & _ & _ & Haha & _).
    unfold height in *. rewrite Hphm, Hps1, Hs1 in Hmp.
    rewrite Haha, Has1, Hs1 in Had.
    rewrite Hps1, Hph1, Hs1 in Hpl. rewrite Has1, Hah1, Hs1 in Hai.
    split; [apply Hmp | apply Had]; lia.
  - pose proof (wall_near s1 Hbh1 Hb1) as Hx.
    match goal with
    | |- context [win_check (ai_decide r (tick_ai_delay (move_player ?x)))] =>
        destruct (table_fields _ _ (tail_table r x))
          as (Eb & Ev & _ & _ & _ & _ & _ & _ & _ & Esz)
    end.
    unfold ball_near, height in *. rewrite Eb, Ev, Esz. exact Hx.
Qed.

Lemma court_ok_same s s' :
  ball s' = ball s -> ball_velocity s' = ball_velocity s ->
  player s' = player s -> ai s' = ai s -> size s' = size s ->
  player_speed s' = player_speed s -> ai_speed s' = ai_speed s ->
  court_ok s -> court_ok s'.
Proof.
  unfold court_ok, velocity_ok, paddles_near, ball_near, height.
  intros -> -> -> -> -> -> ->. auto.
Qed.

Lemma after_serve_court sz beep_ms s w :
  fixed s = fixed_at sz beep_ms -> 0 <= fst sz -> 184 <= snd sz ->
  court_ok s -> court_ok (fst (after_serve s w)).
Proof.
  intros Hf Hw Hh Hc. destruct (wait_after_score s) eqn:Hwait.
  - destruct (after_serve_waiting s w Hwait) as (w' & _ & _ & _ & _ & ->).
    destruct (delay_pending w s); [exact Hc |].
    apply (rally_court sz beep_ms); try assumption;
      try (eapply court_ok_same; [.. | exact Hc]; reflexivity).
  - rewrite (after_serve_rallying s w Hwait).
    now apply (rally_court sz beep_ms).
Qed.

Lemma update_scene_court sz beep_ms s w :
  fixed s = fixed_at sz beep_ms -> 0 <= fst sz -> 184 <= snd sz ->
  court_ok s -> court_ok (fst (update_scene s w)).
Proof.
  intros Hf Hw Hh Hc. destruct (serve s) eqn:Hs.
  - destruct (update_scene_serving s w Hs) as (w' & _ & _ & _ & _ & ->).
    assert (Hc' : court_ok (countdown_started w s)).
    { eapply court_ok_same; [.. | exact Hc];
        unfold countdown_started; destruct (countdown_played s); reflexivity. }
    destruct (countdown_pending w s); cbn [fst]; [exact Hc' |].
    apply (after_serve_court sz beep_ms); try assumption;
      try (eapply court_ok_same; [.. | exact Hc']; reflexivity).
    rewrite <- Hf. unfold countdown_started.
    destruct (countdown_played s); reflexivity.
  - unfold update_scene. rewrite Hs. now apply (after_serve_court sz beep_ms).
Qed.

Lemma process_event_court e s : court_ok s -> court_ok (process_event e s).
Proof.
  apply court_ok_same; unfold process_event;
    destruct e as [| k | k |]; cbn; block_cases; reflexivity.
Qed.

Lemma reachable_court sz beep_ms sw :
  0 <= fst sz -> 184 <= snd sz ->
  reachable sz beep_ms sw -> court_ok (fst sw).
Proof.
  intros Hw Hh. induction 1 as [w0 | a [s w] Hr IH].
  - unfold court_ok, velocity_ok, pm8, paddles_near, ball_near, height. cbn.
    repeat split; try lia; auto.
  - pose proof (reachable_fixed _ _ _ Hr) as Hf.
    destruct a as [| e]; cbn [step fst snd] in *.
    + now apply (update_scene_court sz beep_ms).
    + now apply process_event_court.
Qed.

Lemma demo_up_reachable n : reachable (750, 750) 3000 (demo_up n).
Proof. apply run_reachable, reach_init. Qed.

(** C3, as amended.  In every reachable state of a scene on a surface of
    non-negative width and at least 184 high, a paddle is less than one step
    of its speed past the top or the bottom of the surface (the player
    paddle between -11 and height - 180 + 11, the AI paddle between -8 and
    height - 180 + 8), and the ball less than one step of 8 (between -7 and
    height - 30 + 7): the guards test the position before the move, and
    nothing brings a paddle or the ball back to the edge. *)
Theorem paddles_and_ball_near_surface sz beep_ms sw :
  0 <= fst sz -> 184 <= snd sz ->
  reachable sz beep_ms sw ->
  let s := fst sw in
  -11 <= ry (player s) <= snd sz - 180 + 11 /\
  -8 <= ry (ai s) <= snd sz - 180 + 8 /\
  -7 <= ry (ball s) <= snd sz - 30 + 7.
Proof.
  intros Hw Hh Hr. cbv zeta.
  destruct (reachable_court sz beep_ms sw Hw Hh Hr) as (_ & (Hp & Ha) & (Hb & _)).
  destruct (fixed_fields _ _ _ (reachable_fixed _ _ _ Hr))
    as (Hs & _ & _ & _ & Hph & _ & Hah & Hps & Has & _).
  unfold height in *. rewrite Hs, Hph, Hps in Hp. rewrite Hs, Hah, Has in Ha.
  rewrite Hs in Hb. lia.
Qed.

(** The demo match with the Up key held, after frame 26: the player paddle
    is at -5, within 11 of the top edge. *)
Lemma paddles_and_ball_near_surface_witness :
  ry (player (fst (demo_up 27))) = -5 /\
  -11 <= ry (player (fst (demo_up 27))) <= 750 - 180 + 11.
Proof.
  split; [vm_compute; reflexivity |].
  assert (H0 : 0 <= fst (750, 750)) by (cbn; lia).
  assert (H1 : 184 <= snd (750, 750)) by (cbn; lia).
  exact (proj1 (paddles_and_ball_near_surface (750, 750) 3000 (demo_up 27)
                  H0 H1 (demo_up_reachable 27))).
Defined.

(** C3 as stated fails: with the Up key held, frame 26 of the demo match is
    a rally frame that starts with the player paddle at 7 and returns with
    it at -5, outside [0, height - 180]. *)
Lemma paddle_leaves_surface :
  let s := fst (demo_up 26) in
  let s' := fst (update_scene s (snd (demo_up 26))) in
  reachable (750, 750) 3000 (demo_up 26) /\
  phase s = Rallying /\ ry (player s) = 7 /\
  ry (player s') = -5 /\ ~ (0 <= ry (player s') <= height s' - rh (player s')).
Proof.
  cbv zeta. split; [apply demo_up_reachable |].
  assert (H : ry (player (fst (update_scene (fst (demo_up 26))
                                 (snd (demo_up 26))))) = -5)
    by (vm_compute; reflexivity).
  repeat split; try (vm_compute; reflexivity).
  rewrite H. lia.
Qed.


(** * Further properties of the scenes *)

(** ** Event handlers *)

(** X1. The handler of the base class closes a scene exactly on a quit event
    and on an escape key-down: the scene is valid afterwards if and only if
    it was valid and the event is neither; no event makes an invalid scene
    valid again; frame rate and soundtrack are never written; and every
    other event returns the scene and the output as they were. *)
Theorem scene_closes_on_quit_or_escape e (self : Scene.t) out :
  let r := Scene.process_event e self out in
  Scene.is_valid (fst r) = Scene.is_valid self && negb (closes e) /\
  Scene.frame_rate (fst r) = Scene.frame_rate self /\
  Scene.soundtrack (fst r) = Scene.soundtrack self /\
  (closes e = false -> r = (self, out)) /\
  (closes e = true -> exists msg, snd r = out ++ [msg]).
Proof.
  cbv zeta. destruct e as [| k | k | n]; try destruct k; cbn;
    rewrite ?andb_true_r, ?andb_false_r; repeat split;
    try discriminate; intros _; eexists; reflexivity.
Qed.

Lemma scene_closes_on_quit_or_escape_witness :
  Scene.process_event (KEYDOWN K_w) (Scene.init None) [] = (Scene.init None, []) /\
  snd (Scene.process_event QUIT (Scene.init None) []) = ["Good Bye!"%string].
Proof.
  split.
  - exact (proj1 (proj2 (proj2 (proj2
      (scene_closes_on_quit_or_escape (KEYDOWN K_w) (Scene.init None) []))))
      eq_refl).
  - destruct (proj2 (proj2 (proj2 (proj2
      (scene_closes_on_quit_or_escape QUIT (Scene.init None) []))))
      eq_refl) as [msg H].
    reflexivity.
Defined.

(** X2. A press-any-key scene ([PressAnyKeyToExitScene], [TitleScreen],
    [GameOver]) closes on a quit event and on every key-down, whatever the
    key: the scene is valid afterwards if and only if it was valid and the
    event is neither.  Key-up events and other events leave scene and output
    as they were, and the two handlers agree on every event. *)
Theorem any_key_closes e (self : Scene.t) out :
  let r := PressAnyKeyToExitScene_process_event e self out in
  Scene.is_valid (fst r) = Scene.is_valid self && negb (closes_any_key e) /\
  (forall k, Scene.is_valid
               (fst (PressAnyKeyToExitScene_process_event (KEYDOWN k) self out))
             = false) /\
  Scene.frame_rate (fst r) = Scene.frame_rate self /\
  Scene.soundtrack (fst r) = Scene.soundtrack self /\
  (closes_any_key e = false -> r = (self, out)) /\
  GameOver_process_event e self out = r.
Proof.
  cbv zeta. split; [| split; [| split; [| split; [| split]]]].
  - destruct e as [| k | k | n]; try destruct k; cbn;
      rewrite ?andb_true_r, ?andb_false_r; reflexivity.
  - intros k. destruct k; reflexivity.
  - destruct e as [| k | k | n]; try destruct k; reflexivity.
  - destruct e as [| k | k | n]; try destruct k; reflexivity.
  - destruct e as [| k | k | n]; try destruct k; cbn; try discriminate;
      reflexivity.
  - reflexivity.
Qed.

Lemma any_key_closes_witness :
  PressAnyKeyToExitScene_process_event (KEYUP K_ESCAPE) (Scene.init None) []
  = (Scene.init None, []).
Proof.
  exact (proj1 (proj2 (proj2 (proj2 (proj2
    (any_key_closes (KEYUP K_ESCAPE) (Scene.init None) [])))))
    eq_refl).
Defined.

(** X3. A scene without a soundtrack ([None] or the empty string) starts
    without touching the music channel: [start_scene] returns, asks the
    channel for nothing and prints nothing, also on a channel on which every
    load would fail. *)
Theorem start_scene_without_soundtrack (self : Scene.t) (m : Scene.Mixer) :
  Scene.soundtrack self = None \/ Scene.soundtrack self = Some ""%string ->
  Scene.start_scene self m = (Scene.Returned, m).
Proof.
  intros [H | H]; unfold Scene.start_scene; rewrite H; reflexivity.
Qed.

Lemma start_scene_without_soundtrack_witness :
  Scene.start_scene (Scene.init (Some ""%string)) broken_mixer
  = (Scene.Returned, broken_mixer).
Proof.
  exact (start_scene_without_soundtrack (Scene.init (Some ""%string))
           broken_mixer (or_intror eq_refl)).
Defined.

Lemma process_event_keydown k s :
  process_event (KEYDOWN k) s =
    let s1 := if moves_up k then set_player_move_up true s else s in
    if moves_down k then set_player_move_down true s1 else s1.
Proof. reflexivity. Qed.

Lemma process_event_keyup k s :
  process_event (KEYUP k) s =
    let s1 := if moves_up k then set_player_move_up false s else s in
    if moves_down k then set_player_move_down false s1 else s1.
Proof. reflexivity. Qed.

(** X4. The keys of one direction share one flag.  Releasing W or Up clears
    [player_move_up] even while the other key of the pair is still held, and
    likewise S and Down for [player_move_down]; pressing a key twice is the
    same as pressing it once; and on a scene with both flags clear, pressing
    and releasing any one key gives back exactly the scene as it was. *)
Theorem movement_keys_share_flags s :
  (forall k1 k2, moves_up k1 = true -> moves_up k2 = true ->
     player_move_up (process_event (KEYUP k2)
       (process_event (KEYDOWN k1) (process_event (KEYDOWN k2) s))) = false) /\
  (forall k1 k2, moves_down k1 = true -> moves_down k2 = true ->
     player_move_down (process_event (KEYUP k2)
       (process_event (KEYDOWN k1) (process_event (KEYDOWN k2) s))) = false) /\
  (forall k, process_event (KEYDOWN k) (process_event (KEYDOWN k) s)
             = process_event (KEYDOWN k) s) /\
  (forall k, player_move_up s = false -> player_move_down s = false ->
     process_event (KEYUP k) (process_event (KEYDOWN k) s) = s).
Proof.
  split; [| split; [| split]].
  - intros k1 k2 H1 H2. rewrite process_event_keyup. cbv zeta. rewrite H2.
    destruct (moves_down k2); reflexivity.
  - intros k1 k2 H1 H2. rewrite process_event_keyup. cbv zeta. rewrite H2.
    reflexivity.
  - intros k. rewrite !process_event_keydown. cbv zeta.
    destruct (moves_up k), (moves_down k); reflexivity.
  - intros k Hu Hd. rewrite process_event_keyup, process_event_keydown.
    cbv zeta. destruct s; cbn in Hu, Hd; subst.
    destruct (moves_up k), (moves_down k); reflexivity.
Qed.

Lemma movement_keys_share_flags_witness :
  player_move_up (process_event (KEYUP K_UP)
    (process_event (KEYDOWN K_w)
       (process_event (KEYDOWN K_UP) (fst (demo 5))))) = false /\
  process_event (KEYUP K_s) (process_event (KEYDOWN K_s) (fst (demo 5)))
  = fst (demo 5).
Proof.
  destruct (movement_keys_share_flags (fst (demo 5))) as (H1 & _ & _ & H4).
  split.
  - exact (H1 K_w K_UP eq_refl eq_refl).
  - apply H4; vm_compute; reflexivity.
Defined.

(** ** The movement flags across a frame *)

Lemma finish_frame_held : keeps held finish_frame.
Proof.
  intros s w. unfold finish_frame.
  apply bind_inv with (Q := fun a => held a = held s).
  { rewrite wall_bounce_fst. destruct (wall_hit s); reflexivity. }
  intros s1 w1 H1.
  apply bind_inv with (Q := fun a => held a = held s).
  { rewrite move_ai_fst, <- H1.
    unfold ai_decide, tick_ai_delay, move_player. block_cases; reflexivity. }
  intros s2 w2 H2.
  apply bind_inv with (Q := fun a => held a = held s).
  { rewrite score_check_again_fst. block_cases; exact H2. }
  intros s3 w3 H3. rewrite ret_fst, <- H3. unfold win_check.
  block_cases; reflexivity.
Qed.

Lemma rally_held : keeps held rally.
Proof.
  intros s w. rewrite rally_unfold. cbv zeta.
  rewrite finish_frame_held, score_check_fst.
  assert (H : held (moved s) = held s)
    by (unfold moved; destruct (contact s); reflexivity).
  block_cases; cbn; exact H.
Qed.

Lemma after_serve_held : keeps held after_serve.
Proof.
  intros s w. destruct (wait_after_score s) eqn:Hw.
  - destruct (after_serve_waiting s w Hw) as (w' & _ & _ & _ & _ & ->).
    destruct (delay_pending w s); [reflexivity |]. now rewrite rally_held.
  - now rewrite (after_serve_rallying s w Hw), rally_held.
Qed.

(** X5. [update_scene] never writes the two movement flags, in any phase
    and also in a frame that scores and resets the paddles: a key that is
    held stays held until its key-up event arrives. *)
Theorem update_scene_keeps_movement_flags s w :
  player_move_up (fst (update_scene s w)) = player_move_up s /\
  player_move_down (fst (update_scene s w)) = player_move_down s.
Proof.
  assert (H : held (fst (update_scene s w)) = held s).
  { destruct (serve s) eqn:Hs.
    - destruct (update_scene_serving s w Hs) as (w' & _ & _ & _ & _ & ->).
      assert (Hc : held (countdown_started w s) = held s)
        by (unfold countdown_started; destruct (countdown_played s); reflexivity).
      destruct (countdown_pending w s); cbn [fst]; [exact Hc |].
      now rewrite after_serve_held.
    - unfold update_scene. rewrite Hs. apply after_serve_held. }
  unfold held in H. inversion H. auto.
Qed.

(** ** The paddles across a frame *)

Lemma set_y_same (r : Rect) : set_y (ry r) r = r.
Proof. destruct r; reflexivity. Qed.

Lemma move_player_rect s :
  player (move_player s) =
    set_y (player_step (player_move_up s) (player_move_down s)
             (ry (player s)) (rh (player s)) (player_speed s) (height s))
          (player s).
Proof.
  unfold move_player, player_step, top, bottom, height.
  destruct (player_move_up s && (ry (player s) >? 0)); cbn;
    destruct (player_move_down s && _); cbn;
    rewrite ?set_y_same; reflexivity.
Qed.

Lemma ai_decide_rect r s :
  ai (ai_decide r s) =
    set_y (ai_step r (ball s) (ry (ai s)) (rh (ai s)) (ai_speed s) (height s))
          (ai s).
Proof.
  unfold ai_decide, ai_step, top, bottom, height, centery.
  destruct (_ && (ry (ai s) >? 0)); cbn; [reflexivity |].
  destruct (_ && _); cbn; rewrite ?set_y_same; reflexivity.
Qed.

Lemma move_player_ext a b :
  player a = player b -> held a = held b -> size a = size b ->
  player_speed a = player_speed b ->
  player (move_player a) = player (move_player b).
Proof.
  unfold held. intros Hp Hh Hs Hsp. inversion Hh as [[Hu Hd]].
  rewrite !move_player_rect. unfold height. now rewrite Hp, Hu, Hd, Hs, Hsp.
Qed.

Lemma move_player_column s : rx (player (move_player s)) = rx (player s).
Proof. now rewrite move_player_rect. Qed.

Lemma ai_decide_column r s : rx (ai (ai_decide r s)) = rx (ai s).
Proof. now rewrite ai_decide_rect. Qed.

(** The paddles after a frame that reaches the rally, from the scene at
    line 226. *)
Lemma rally_paddles s w :
  0 <= width s -> rw (ball s) = 30 ->
  exists r, -40 <= r <= 40 /\
    player (fst (rally s w)) = player (move_player (after_check s w)) /\
    ai (fst (rally s w)) = ai (ai_decide r (after_check s w)).
Proof.
  intros Hw Hb. destruct (rally_after_check s w Hw Hb) as (r & Hr & ->).
  exists r. split; [exact Hr |].
  rewrite tail_player, tail_ai.
  destruct (wall_hit (after_check s w)); [| split; reflexivity].
  now rewrite move_player_flip_vy, ai_decide_flip_vy.
Qed.

Lemma moved_paddle_inputs s :
  player (moved s) = player s /\ ai (moved s) = ai s /\
  held (moved s) = held s /\ size (moved s) = size s /\
  player_speed (moved s) = player_speed s /\ ai_speed (moved s) = ai_speed s.
Proof. unfold moved. destruct (contact s); repeat split. Qed.

(** The paddles after a rally frame that keeps the ball in play. *)
Lemma rally_in_play_paddles s w :
  in_play (moved s) ->
  player (fst (rally s w)) = player (move_player s) /\
  ai (fst (rally s w)) = ai (ai_decide (jitter w) (moved s)).
Proof.
  intros Hin. rewrite (rally_in_play s w Hin), tail_player, tail_ai.
  destruct (moved_paddle_inputs s) as (Hp & _ & Hh & Hs & Hsp & _).
  split.
  - destruct (wall_hit (moved s)); rewrite ?move_player_flip_vy;
      now apply move_player_ext.
  - destruct (wall_hit (moved s)); rewrite ?ai_decide_flip_vy; reflexivity.
Qed.

Lemma rally_lanes sz beep_ms s w :
  fixed s = fixed_at sz beep_ms -> 0 <= fst sz ->
  lanes_ok s -> lanes_ok (fst (rally s w)).
Proof.
  intros Hf Hw (Hp & Ha).
  destruct (fixed_fields _ _ _ Hf) as (Hs & Hb & _).
  pose proof (rally_fixed s w) as Hf'. rewrite Hf in Hf'.
  destruct (fixed_fields _ _ _ Hf') as (Hs' & _).
  destruct (rally_paddles s w) as (r & _ & Hpl & Hai);
    [unfold width; now rewrite Hs | exact Hb |].
  unfold lanes_ok, width in *. rewrite Hpl, Hai, Hs'.
  rewrite move_player_column, ai_decide_column.
  destruct (Z.ltb_spec (right (ball (moved s))) 0) as [Hout | Hin1];
    [| destruct (Z.gtb_spec (left (ball (moved s))) (width (moved s)))
         as [Hout | Hin2]].
  3:{ unfold after_check. rewrite score_check_idle by (split; lia). cbn [fst].
      destruct (moved_paddle_inputs s) as (-> & -> & _). now rewrite <- Hs. }
  all: destruct (after_check_scored_fields sz beep_ms s w Hf) as (_ & -> & -> & _);
    [unfold in_play; lia | split; reflexivity].
Qed.

Lemma lanes_ok_same s s' :
  player s' = player s -> ai s' = ai s -> size s' = size s ->
  lanes_ok s -> lanes_ok s'.
Proof. unfold lanes_ok, width. now intros -> -> ->. Qed.

Lemma update_scene_lanes sz beep_ms s w :
  fixed s = fixed_at sz beep_ms -> 0 <= fst sz ->
  lanes_ok s -> lanes_ok (fst (update_scene s w)).
Proof.
  intros Hf Hw Hl.
  assert (Hafter : forall s1 w1, fixed s1 = fixed_at sz beep_ms -> lanes_ok s1 ->
                     lanes_ok (fst (after_serve s1 w1))).
  { intros s1 w1 Hf1 Hl1. destruct (wait_after_score s1) eqn:Hwait.
    - destruct (after_serve_waiting s1 w1 Hwait) as (w' & _ & _ & _ & _ & ->).
      destruct (delay_pending w1 s1); [exact Hl1 |].
      apply (rally_lanes sz beep_ms); [exact Hf1 | exact Hw | exact Hl1].
    - rewrite (after_serve_rallying s1 w1 Hwait).
      now apply (rally_lanes sz beep_ms). }
  destruct (serve s) eqn:Hs.
  - destruct (update_scene_serving s w Hs) as (w' & _ & _ & _ & _ & ->).
    assert (Hc : lanes_ok (countdown_started w s)).
    { eapply lanes_ok_same; [.. | exact Hl];
        unfold countdown_started; destruct (countdown_played s); reflexivity. }
    destruct (countdown_pending w s); cbn [fst]; [exact Hc |].
    apply Hafter.
    + rewrite <- Hf. unfold countdown_started.
      destruct (countdown_played s); reflexivity.
    + eapply lanes_ok_same; [.. | exact Hc]; reflexivity.
  - unfold update_scene. rewrite Hs. now apply Hafter.
Qed.

Lemma process_event_lanes e s : lanes_ok s -> lanes_ok (process_event e s).
Proof.
  apply lanes_ok_same; unfold process_event;
    destruct e as [| k | k |]; cbn; block_cases; reflexivity.
Qed.

Lemma reachable_lanes sz beep_ms sw :
  0 <= fst sz -> reachable sz beep_ms sw -> lanes_ok (fst sw).
Proof.
  intros Hw. induction 1 as [w0 | a [s w] Hr IH].
  - split; reflexivity.
  - pose proof (reachable_fixed _ _ _ Hr) as Hf.
    destruct a as [| e]; cbn [step fst snd] in *.
    + now apply (update_scene_lanes sz beep_ms).
    + now apply process_event_lanes.
Qed.

(** X6. The paddles never move sideways: in every reachable state of a scene
    on a surface of non-negative width the player paddle is at x = 30 and
    the AI paddle at x = width - 40, and both are 20 wide and 180 high. *)
Theorem paddles_stay_in_their_columns sz beep_ms sw :
  0 <= fst sz ->
  reachable sz beep_ms sw ->
  let s := fst sw in
  rx (player s) = 30 /\ rx (ai s) = fst sz - 40 /\
  rw (player s) = 20 /\ rh (player s) = 180 /\
  rw (ai s) = 20 /\ rh (ai s) = 180.
Proof.
  intros Hw Hr. cbv zeta.
  destruct (fixed_fields _ _ _ (reachable_fixed _ _ _ Hr))
    as (Hs & _ & _ & Hpw & Hph & Haw & Hah & _).
  destruct (reachable_lanes sz beep_ms sw Hw Hr) as (Hp & Ha).
  unfold width in Ha. rewrite Hs in Ha.
  repeat split; assumption.
Qed.

Lemma paddles_stay_in_their_columns_witness :
  rx (player (fst (demo_up 27))) = 30 /\ rx (ai (fst (demo_up 27))) = 710.
Proof.
  assert (H0 : 0 <= fst (750, 750)) by (cbn; lia).
  destruct (paddles_stay_in_their_columns (750, 750) 3000 (demo_up 27) H0
              (demo_up_reachable 27)) as (Hp & Ha & _).
  split; [exact Hp | exact Ha].
Defined.

(** X7. The player paddle in a rally frame that keeps the ball in play,
    from a reachable state on a surface of non-negative width and at least
    184 high.  With no key held it stays; with only an up key held it moves
    up by 12 when [top > 0] and stays otherwise; with only a down key held
    it moves down by 12 when [bottom < height] and stays otherwise; with
    keys of both directions held the two moves cancel, except when the top
    of the paddle is at or above the top edge, where only the downward move
    is made. *)
Theorem player_paddle_step sz beep_ms sw :
  0 <= fst sz -> 184 <= snd sz ->
  reachable sz beep_ms sw ->
  let s := fst sw in
  let s' := fst (update_scene s (snd sw)) in
  phase s = Rallying -> in_play (moved s) ->
  rx (player s') = rx (player s) /\
  ry (player s') =
    match player_move_up s, player_move_down s with
    | false, false => ry (player s)
    | true, false => if ry (player s) >? 0 then ry (player s) - 12 else ry (player s)
    | false, true =>
        if ry (player s) + 180 <? snd sz then ry (player s) + 12 else ry (player s)
    | true, true => if ry (player s) >? 0 then ry (player s) else ry (player s) + 12
    end.
Proof.
  intros Hw Hh Hr. cbv zeta. destruct sw as [s w]; cbn [fst snd].
  intros Hph Hin.
  destruct (fixed_fields _ _ _ (reachable_fixed _ _ _ Hr))
    as (Hs & _ & _ & _ & Hrh & _ & _ & Hsp & _); cbn [fst] in *.
  destruct (reachable_court sz beep_ms (s, w) Hw Hh Hr) as (_ & (Hnear & _) & _);
    cbn [fst] in Hnear.
  destruct (phase_rallying s Hph) as (Hserve & Hwait).
  rewrite (update_scene_rallying s w Hserve Hwait).
  destruct (rally_in_play_paddles s w Hin) as (-> & _).
  rewrite move_player_rect. unfold player_step, height in *.
  rewrite Hs, Hrh, Hsp in *. cbn [rx ry set_y].
  split; [reflexivity |].
  destruct (player_move_up s), (player_move_down s); cbn [andb].
  - destruct (Z.gtb_spec (ry (player s)) 0).
    + destruct (Z.ltb_spec (ry (player s) - 12 + 180) (snd sz)); lia.
    + destruct (Z.ltb_spec (ry (player s) + 180) (snd sz)); lia.
  - destruct (ry (player s) >? 0); reflexivity.
  - reflexivity.
  - reflexivity.
Qed.

(** Frame 26 of the demo match with the Up key held: the paddle goes from
    7 to -5. *)
Lemma player_paddle_step_witness :
  (player_move_up (fst (demo_up 26)) = true /\
   player_move_down (fst (demo_up 26)) = false /\
   ry (player (fst (demo_up 26))) = 7) /\
  ry (player (fst (update_scene (fst (demo_up 26)) (snd (demo_up 26))))) = -5.
Proof.
  assert (H0 : 0 <= fst (750, 750)) by (cbn; lia).
  assert (H1 : 184 <= snd (750, 750)) by (cbn; lia).
  assert (H2 : phase (fst (demo_up 26)) = Rallying) by (vm_compute; reflexivity).
  assert (H3 : in_play (moved (fst (demo_up 26)))).
  { unfold in_play. vm_compute. split; discriminate. }
  assert (Hu : player_move_up (fst (demo_up 26)) = true) by (vm_compute; reflexivity).
  assert (Hd : player_move_down (fst (demo_up 26)) = false)
    by (vm_compute; reflexivity).
  assert (Hy : ry (player (fst (demo_up 26))) = 7) by (vm_compute; reflexivity).
  split; [repeat split; assumption |].
  destruct (player_paddle_step (750, 750) 3000 (demo_up 26) H0 H1
              (demo_up_reachable 26) H2 H3) as (_ & Hstep).
  rewrite Hstep, Hu, Hd, Hy. reflexivity.
Defined.

(** X8. The AI paddle in a rally frame that keeps the ball in play, from a
    reachable state.  It moves by exactly 9 or not at all.  Write [target]
    for the centre of the moved ball plus the jitter of the frame and
    [centre] for the centre of the paddle: a move up needs
    [target < centre - 60], a move down needs [target > centre + 75], and
    with the target within 60 of the centre the paddle stays.  The dead
    zone is 60 upwards and 75 downwards. *)
Theorem ai_paddle_step sz beep_ms sw :
  reachable sz beep_ms sw ->
  let s := fst sw in
  let w := snd sw in
  let s' := fst (update_scene s w) in
  let target := centery (ball (moved s)) + jitter w in
  let centre := centery (ai s) in
  phase s = Rallying -> in_play (moved s) ->
  rx (ai s') = rx (ai s) /\
  (ry (ai s') = ry (ai s) - 9 /\ target < centre - 60 /\ 0 < ry (ai s) \/
   ry (ai s') = ry (ai s) + 9 /\ centre + 75 < target /\ bottom (ai s) < snd sz \/
   ry (ai s') = ry (ai s)) /\
  (centre - 60 <= target <= centre + 60 -> ai s' = ai s).
Proof.
  intros Hr. cbv zeta. destruct sw as [s w]; cbn [fst snd].
  intros Hph Hin.
  destruct (fixed_fields _ _ _ (reachable_fixed _ _ _ Hr))
    as (Hs & _ & Hbh & _ & _ & _ & Hrh & _ & Hsp & _); cbn [fst] in *.
  destruct (phase_rallying s Hph) as (Hserve & Hwait).
  rewrite (update_scene_rallying s w Hserve Hwait).
  destruct (rally_in_play_paddles s w Hin) as (_ & ->).
  rewrite ai_decide_rect.
  destruct (moved_paddle_inputs s) as (_ & Ha & _ & Hsz & _ & Hasp).
  assert (Hmb : rh (ball (moved s)) = 30).
  { pose proof (moved_fixed s) as Hf.
    pose proof (reachable_fixed _ _ _ Hr) as Hfs. cbn [fst] in Hfs.
    rewrite Hfs in Hf.
    now destruct (fixed_fields _ _ _ Hf) as (_ & _ & ? & _). }
  unfold height. rewrite Ha, Hsz, Hasp, Hs, Hrh, Hsp.
  unfold ai_step, centery, bottom, dead_zone. rewrite Hmb, Hrh.
  cbn [rx ry set_y].
  split; [reflexivity |].
  destruct (Z.ltb_spec (ry (ball (moved s)) + 30 / 2 + jitter w)
                       (ry (ai s) + 180 / 2 - 60));
    destruct (Z.gtb_spec (ry (ai s)) 0); cbn [andb];
    try (split; [left; lia | intros; lia]);
    destruct (Z.gtb_spec (ry (ball (moved s)) + jitter w)
                         (ry (ai s) + 180 / 2 + 60));
    destruct (Z.ltb_spec (ry (ai s) + 180) (snd sz)); cbn [andb];
    (split; [try (right; right; reflexivity); right; left; lia
            | intros; rewrite ?set_y_same; try reflexivity; lia]).
Qed.

(** Frame 12 of the demo match: the target is 78 below the centre of the AI
    paddle and the paddle moves down by 9. *)
Lemma ai_paddle_step_witness :
  centery (ball (moved (fst (demo 12)))) + jitter (snd (demo 12))
  - centery (ai (fst (demo 12))) = 78 /\
  ry (ai (fst (demo 12))) = 295 /\
  ry (ai (fst (update_scene (fst (demo 12)) (snd (demo 12))))) = 304.
Proof.
  assert (H2 : phase (fst (demo 12)) = Rallying) by (vm_compute; reflexivity).
  assert (H3 : in_play (moved (fst (demo 12)))).
  { unfold in_play. vm_compute. split; discriminate. }
  assert (Ht : centery (ball (moved (fst (demo 12)))) + jitter (snd (demo 12))
               - centery (ai (fst (demo 12))) = 78) by (vm_compute; reflexivity).
  assert (Hy : ry (ai (fst (demo 12))) = 295) by (vm_compute; reflexivity).
  split; [exact Ht | split; [exact Hy |]].
  destruct (ai_paddle_step (750, 750) 3000 (demo 12) (demo_reachable 12) H2 H3)
    as (_ & [(Hup & Hlt & _) | [(Hdown & _) | Hsame]] & Hzone).
  - exfalso. lia.
  - rewrite Hdown, Hy. reflexivity.
  - vm_compute. reflexivity.
Defined.

(** ** The ball across a frame *)

(** X9. A rally frame that keeps the ball in play moves the ball by its
    velocity, once: by the horizontal velocity, negated first when the ball
    touches a paddle, and by the vertical velocity.  It keeps the size of
    the ball, returns with the horizontal velocity it moved by, and negates
    the vertical velocity exactly when the moved ball touches or passes the
    top or the bottom edge. *)
Theorem ball_moves_by_its_velocity s w :
  phase s = Rallying -> in_play (moved s) ->
  let s' := fst (update_scene s w) in
  let vx := if contact s then - fst (ball_velocity s) else fst (ball_velocity s) in
  let vy := snd (ball_velocity s) in
  ball s' = mkRect (rx (ball s) + vx) (ry (ball s) + vy)
                   (rw (ball s)) (rh (ball s)) /\
  ball_velocity s' =
    (vx, if (bottom (ball s') >=? height s) || (top (ball s') <=? 0)
         then - vy else vy).
Proof.
  intros Hph Hin. cbv zeta.
  destruct (phase_rallying s Hph) as (Hserve & Hwait).
  rewrite (update_scene_rallying s w Hserve Hwait), (rally_in_play s w Hin).
  match goal with
  | |- context [win_check (ai_decide ?r (tick_ai_delay (move_player ?x)))] =>
      destruct (table_fields _ _ (tail_table r x)) as (-> & -> & _)
  end.
  destruct (wall_table (moved s)) as (-> & _).
  assert (Hb : ball (moved s) =
               mkRect (rx (ball s)
                       + (if contact s then - fst (ball_velocity s)
                          else fst (ball_velocity s)))
                      (ry (ball s) + snd (ball_velocity s))
                      (rw (ball s)) (rh (ball s))).
  { unfold moved, move_ball, set_x, set_y. destruct (contact s); cbn;
      f_equal; lia. }
  split; [exact Hb |].
  assert (Hv : ball_velocity (moved s) =
               (if contact s then - fst (ball_velocity s)
                else fst (ball_velocity s), snd (ball_velocity s))).
  { unfold moved. destruct (contact s); cbn; [f_equal; lia |].
    now destruct (ball_velocity s). }
  assert (Hh : height (moved s) = height s).
  { unfold height. now destruct (moved_paddle_inputs s) as (_ & _ & _ & -> & _). }
  unfold wall_hit. rewrite Hh.
  destruct (_ || _); cbn; rewrite Hv; cbn; f_equal; lia.
Qed.

(** Frame 5 of the demo match: the ball goes from (384, 384) to (392, 392). *)
Lemma ball_moves_by_its_velocity_witness :
  ball (fst (demo 5)) = mkRect 384 384 30 30 /\
  ball_velocity (fst (demo 5)) = (8, 8) /\
  ball (fst (update_scene (fst (demo 5)) (snd (demo 5)))) = mkRect 392 392 30 30.
Proof.
  assert (H2 : phase (fst (demo 5)) = Rallying) by (vm_compute; reflexivity).
  assert (H3 : in_play (moved (fst (demo 5)))).
  { unfold in_play. vm_compute. split; discriminate. }
  split; [vm_compute; reflexivity | split; [vm_compute; reflexivity |]].
  rewrite (proj1 (ball_moves_by_its_velocity (fst (demo 5)) (snd (demo 5)) H2 H3)).
  vm_compute. reflexivity.
Defined.

(** X10. The ball never sticks in a wall.  In every reachable state of a
    scene on a surface of non-negative width and at least 184 high: when the
    top of the ball is at or above the top edge its vertical velocity is 8
    (downwards), and when its bottom is at or below the bottom edge its
    vertical velocity is -8 (upwards). *)
Theorem ball_leaves_the_walls sz beep_ms sw :
  0 <= fst sz -> 184 <= snd sz ->
  reachable sz beep_ms sw ->
  let s := fst sw in
  (top (ball s) <= 0 -> snd (ball_velocity s) = 8) /\
  (snd sz <= bottom (ball s) -> snd (ball_velocity s) = -8).
Proof.
  intros Hw Hh Hr. cbv zeta.
  destruct (reachable_court sz beep_ms sw Hw Hh Hr) as (_ & _ & (_ & Ht & Hb)).
  destruct (fixed_fields _ _ _ (reachable_fixed _ _ _ Hr))
    as (Hs & _ & Hbh & _).
  unfold top, bottom, height in *. rewrite Hs in Hb. rewrite Hbh.
  split; assumption.
Qed.

(** The ball on the bottom edge when frame 47 of the demo match starts. *)
Lemma ball_leaves_the_walls_witness :
  bottom (ball (fst (demo 47))) = 750 /\
  snd (ball_velocity (fst (demo 47))) = -8.
Proof.
  assert (H0 : 0 <= fst (750, 750)) by (cbn; lia).
  assert (H1 : 184 <= snd (750, 750)) by (cbn; lia).
  assert (Hb : bottom (ball (fst (demo 47))) = 750) by (vm_compute; reflexivity).
  split; [exact Hb |].
  apply (proj2 (ball_leaves_the_walls (750, 750) 3000 (demo 47) H0 H1
                  (demo_reachable 47))).
  rewrite Hb. cbn. lia.
Defined.

(** ** The cycle of the phases *)

Lemma in_play_b_spec s : in_play_b s = true <-> in_play s.
Proof.
  unfold in_play_b, in_play. rewrite andb_true_iff, !Z.leb_le. tauto.
Qed.

Lemma reachable_velocity sz beep_ms sw :
  reachable sz beep_ms sw -> velocity_ok (fst sw).
Proof.
  induction 1 as [w0 | a [s w] Hr IH].
  - unfold velocity_ok, pm8; cbn. auto.
  - destruct a as [| e]; cbn [step fst snd] in *.
    + now apply update_scene_velocity.
    + unfold velocity_ok. now rewrite process_event_velocity.
Qed.

Lemma moved_ball_x s :
  velocity_ok s ->
  rx (ball s) - 8 <= rx (ball (moved s)) <= rx (ball s) + 8 /\
  rw (ball (moved s)) = rw (ball s).
Proof.
  intros (Hvx & _). unfold pm8, moved in *. destruct (contact s); cbn; lia.
Qed.

Lemma moved_ball_y s :
  velocity_ok s ->
  ry (ball s) - 8 <= ry (ball (moved s)) <= ry (ball s) + 8.
Proof.
  intros (_ & Hvy). unfold pm8, moved in *. destruct (contact s); cbn; lia.
Qed.

(** The two waits and the ball after a frame that reaches the rally. *)
Lemma rally_stage sz beep_ms s w :
  fixed s = fixed_at sz beep_ms -> 0 <= fst sz ->
  let s' := fst (rally s w) in
  serve s' = serve s /\
  (in_play (moved s) ->
   wait_after_score s' = wait_after_score s /\ ball s' = ball (moved s)) /\
  (~ in_play (moved s) ->
   wait_after_score s' = true /\
   rx (ball s') = fst sz / 2 - 15 /\ ry (ball s') = snd sz / 2 - 15).
Proof.
  intros Hf Hw. cbv zeta.
  destruct (fixed_fields _ _ _ Hf) as (Hs & Hb & _).
  split; [apply rally_serve_flags |].
  destruct (rally_after_check s w) as (r & _ & ->);
    [unfold width; now rewrite Hs | exact Hb |].
  match goal with
  | |- context [win_check (ai_decide r (tick_ai_delay (move_player ?x)))] =>
      destruct (table_fields _ _ (tail_table r x))
        as (-> & _ & _ & _ & _ & -> & _)
  end.
  destruct (wall_table (after_check s w)) as (-> & _ & _ & _ & _ & -> & _).
  split.
  - intros Hin. unfold after_check. rewrite (score_check_idle _ _ Hin).
    cbn [fst]. now destruct (moved_table s) as (_ & _ & _ & _ & -> & _).
  - intros Hout.
    destruct (after_check_scored_fields sz beep_ms s w Hf Hout)
      as (-> & _ & _ & _ & -> & _).
    repeat split.
Qed.

Lemma staged_same s s' :
  serve s' = serve s -> wait_after_score s' = wait_after_score s ->
  ball s' = ball s -> size s' = size s -> staged s -> staged s'.
Proof. unfold staged, width, height. now intros -> -> -> ->. Qed.

(** One frame: the phase it leads to, and the invariant of the waits. *)
Lemma update_scene_stage sz beep_ms s w :
  fixed s = fixed_at sz beep_ms -> 2 <= fst sz ->
  velocity_ok s -> staged s ->
  staged (fst (update_scene s w)) /\
  phase (fst (update_scene s w)) = next_phase s w.
Proof.
  intros Hf Hw Hv Hst. pose proof Hst as (Hwait & Hserve).
  destruct (fixed_fields _ _ _ Hf) as (Hs & Hb & _).
  assert (Hw0 : 0 <= fst sz) by lia.
  (* a rally from a scene whose ball is within a step of the centre *)
  assert (Hnear : forall s0,
            fixed s0 = fixed_at sz beep_ms -> velocity_ok s0 ->
            fst sz / 2 - 15 - 8 <= rx (ball s0) <= fst sz / 2 - 15 + 8 ->
            in_play (moved s0)).
  { intros s0 Hf0 Hv0 Hx.
    destruct (fixed_fields _ _ _ Hf0) as (Hs0 & Hb0 & _).
    destruct (moved_ball_x s0 Hv0) as (Hm & Hmw).
    destruct (moved_table s0) as (_ & _ & _ & _ & _ & _ & _ & _ & Hsz & _).
    unfold in_play, right, left, width. rewrite Hmw, Hb0, Hsz, Hs0. lia. }
  unfold next_phase, phase.
  destruct (serve s) eqn:Es.
  - (* Serving *)
    destruct (Hserve eq_refl) as (Ew & Hx & _). unfold width in Hx.
    rewrite Hs in Hx.
    destruct (update_scene_serving s w Es) as (w' & _ & _ & _ & _ & ->).
    assert (Hc : serve (countdown_started w s) = true /\
                 wait_after_score (countdown_started w s) = false /\
                 ball (countdown_started w s) = ball s /\
                 size (countdown_started w s) = size s /\
                 ball_velocity (countdown_started w s) = ball_velocity s /\
                 fixed (countdown_started w s) = fixed_at sz beep_ms).
    { rewrite <- Hf. unfold countdown_started.
      destruct (countdown_played s); repeat split; assumption. }
    destruct Hc as (Cs & Cw & Cb & Csz & Cv & Cf).
    destruct (countdown_pending w s); cbn [fst].
    + split; [| now rewrite Cs].
      eapply staged_same; [.. | exact Hst]; congruence.
    + set (s0 := set_serve false (countdown_started w s)).
      assert (Hf0 : fixed s0 = fixed_at sz beep_ms) by exact Cf.
      assert (Hv0 : velocity_ok s0)
        by (unfold velocity_ok; subst s0; cbn; now rewrite Cv).
      assert (Hin : in_play (moved s0)).
      { apply (Hnear s0 Hf0 Hv0). subst s0. cbn. now rewrite Cb. }
      rewrite (after_serve_rallying s0 w') by exact Cw.
      destruct (rally_stage sz beep_ms s0 w' Hf0 Hw0) as (Rs & Rin & _).
      destruct (Rin Hin) as (Rw & _).
      rewrite Rs, Rw. subst s0. cbn. rewrite Cw.
      split; [| reflexivity].
      unfold staged. rewrite Rs, Rw. cbn. rewrite Cw.
      split; intros; discriminate.
  - unfold update_scene. rewrite Es.
    destruct (wait_after_score s) eqn:Ew.
    + (* ScoredWaiting *)
      destruct (Hwait eq_refl) as (_ & Hx & Hy). unfold width in Hx.
      unfold height in Hy. rewrite Hs in Hx, Hy.
      destruct (after_serve_waiting s w Ew) as (w' & _ & _ & _ & _ & ->).
      destruct (delay_pending w s); cbn [fst].
      * split; [exact Hst | now rewrite Es, Ew].
      * assert (Hf0 : fixed (back_to_serve s) = fixed_at sz beep_ms) by exact Hf.
        assert (Hv0 : velocity_ok (back_to_serve s)) by exact Hv.
        assert (Hin : in_play (moved (back_to_serve s))).
        { apply (Hnear _ Hf0 Hv0). cbn. lia. }
        destruct (rally_stage sz beep_ms (back_to_serve s) w' Hf0 Hw0)
          as (Rs & Rin & _).
        destruct (Rin Hin) as (Rw & Rb).
        rewrite Rs, Rw. cbn. split; [| reflexivity].
        unfold staged. rewrite Rs, Rw. cbn.
        split; [intros; discriminate | intros _; split; [reflexivity |]].
        pose proof (rally_fixed (back_to_serve s) w') as Hf'. rewrite Hf0 in Hf'.
        destruct (fixed_fields _ _ _ Hf') as (Hs' & _).
        unfold width, height. rewrite Hs', Rb.
        destruct (moved_ball_x (back_to_serve s) Hv0) as (Hm & _).
        pose proof (moved_ball_y (back_to_serve s) Hv0) as Hmy.
        cbn in Hm, Hmy. split; lia.
    + (* Rallying *)
      rewrite (after_serve_rallying s w Ew).
      destruct (rally_stage sz beep_ms s w Hf Hw0) as (Rs & Rin & Rout).
      pose proof (rally_fixed s w) as Hf'. rewrite Hf in Hf'.
      destruct (fixed_fields _ _ _ Hf') as (Hs' & _).
      destruct (in_play_b (moved s)) eqn:Ein.
      * apply in_play_b_spec in Ein. destruct (Rin Ein) as (Rw & _).
        rewrite Rs, Rw, Es, Ew. split; [| reflexivity].
        unfold staged. rewrite Rs, Rw, Es, Ew. split; intros; discriminate.
      * assert (Hout : ~ in_play (moved s)).
        { intros H. apply in_play_b_spec in H. congruence. }
        destruct (Rout Hout) as (Rw & Rbx & Rby).
        rewrite Rs, Rw, Es. split; [| reflexivity].
        unfold staged, width, height. rewrite Rs, Rw, Es, Hs'.
        split; [intros _; split; [reflexivity | split; [exact Rbx | exact Rby]]
               | intros; discriminate].
Qed.

Lemma reachable_staged sz beep_ms sw :
  2 <= fst sz -> reachable sz beep_ms sw -> staged (fst sw).
Proof.
  intros Hw. induction 1 as [w0 | a [s w] Hr IH].
  - unfold staged, width, height; cbn. split; [intros; discriminate |].
    intros _. split; [reflexivity | split; lia].
  - pose proof (reachable_fixed _ _ _ Hr) as Hf.
    pose proof (reachable_velocity _ _ _ Hr) as Hv.
    destruct a as [| e]; cbn [step fst snd] in *.
    + now apply (update_scene_stage sz beep_ms).
    + eapply staged_same; [.. | exact IH]; unfold process_event;
        destruct e as [| k | k |]; cbn; block_cases; reflexivity.
Qed.

(** X11. The phases follow one cycle.  From every reachable state of a scene
    on a surface at least 2 wide, a frame stays in [Serving] while the
    countdown is pending and leads to [Rallying] when it is over; it stays
    in [Rallying] while the moved ball is in play and leads to
    [ScoredWaiting] when it is past a side; it stays in [ScoredWaiting]
    while the round delay is pending and leads to [Serving] when it is
    over.  No frame skips a phase, and the two waits never hold at once.
    During the round delay the ball is at the centre of the surface on both
    axes: its corner is at [(w / 2 - 15, h / 2 - 15)] and its centre at
    [(w / 2, h / 2)].  During the serve it is within one step of 8 of that
    place on each axis. *)
Theorem phases_follow_one_cycle sz beep_ms sw :
  2 <= fst sz ->
  reachable sz beep_ms sw ->
  let s := fst sw in
  let w := snd sw in
  phase (fst (update_scene s w)) =
    match phase s with
    | Serving => if countdown_pending w s then Serving else Rallying
    | ScoredWaiting => if delay_pending w s then ScoredWaiting else Serving
    | Rallying => if in_play_b (moved s) then Rallying else ScoredWaiting
    end /\
  (serve s && wait_after_score s = false) /\
  (phase s = ScoredWaiting ->
   rx (ball s) = fst sz / 2 - 15 /\ ry (ball s) = snd sz / 2 - 15 /\
   ball s = mkRect (fst sz / 2 - 15) (snd sz / 2 - 15) 30 30 /\
   centerx (ball s) = fst sz / 2 /\ centery (ball s) = snd sz / 2) /\
  (phase s = Serving ->
   fst sz / 2 - 15 - 8 <= rx (ball s) <= fst sz / 2 - 15 + 8 /\
   snd sz / 2 - 15 - 8 <= ry (ball s) <= snd sz / 2 - 15 + 8).
Proof.
  intros Hw Hr. cbv zeta.
  pose proof (reachable_fixed _ _ _ Hr) as Hf.
  pose proof (reachable_velocity _ _ _ Hr) as Hv.
  pose proof (reachable_staged _ _ _ Hw Hr) as Hst.
  destruct (fixed_fields _ _ _ Hf) as (Hs & Hbw & Hbh & _).
  destruct sw as [s w]; cbn [fst snd] in *.
  split; [apply (update_scene_stage sz beep_ms s w Hf Hw Hv Hst) |].
  destruct Hst as (Hwait & Hserve). unfold width, height in *. rewrite Hs in *.
  split; [| split].
  - destruct (serve s); [| reflexivity].
    now destruct (Hserve eq_refl) as (-> & _).
  - intros Hph. destruct (phase_scored_waiting s Hph) as (_ & Ew).
    destruct (Hwait Ew) as (_ & Hx & Hy).
    split; [exact Hx | split; [exact Hy | split]].
    + destruct (ball s) as [bx by_ bw bh]; cbn in *. now subst.
    + unfold centerx, centery. rewrite Hbw, Hbh, Hx, Hy. split; lia.
  - unfold phase. destruct (serve s).
    + intros _. now destruct (Hserve eq_refl) as (_ & Hx & Hy).
    + destruct (wait_after_score s); discriminate.
Qed.

(** Frame 133 of the demo match leads from [ScoredWaiting] to [Serving],
    frame 132 from [Rallying] to [ScoredWaiting].  When frame 133 starts the
    ball is at the centre of the 750 by 750 surface; when frame 134 starts
    the serve is on and the ball is within 8 of that place on both axes. *)
Lemma phases_follow_one_cycle_witness :
  (phase (fst (demo 132)) = Rallying /\
   phase (fst (update_scene (fst (demo 132)) (snd (demo 132)))) = ScoredWaiting) /\
  (phase (fst (demo 133)) = ScoredWaiting /\
   phase (fst (update_scene (fst (demo 133)) (snd (demo 133)))) = Serving) /\
  (ball (fst (demo 133)) = mkRect 360 360 30 30 /\
   centerx (ball (fst (demo 133))) = 375 /\
   centery (ball (fst (demo 133))) = 375) /\
  (phase (fst (demo 134)) = Serving /\
   352 <= rx (ball (fst (demo 134))) <= 368 /\
   352 <= ry (ball (fst (demo 134))) <= 368).
Proof.
  assert (H0 : 2 <= fst (750, 750)) by (cbn; lia).
  assert (H1 : phase (fst (demo 132)) = Rallying) by (vm_compute; reflexivity).
  assert (H2 : phase (fst (demo 133)) = ScoredWaiting) by (vm_compute; reflexivity).
  assert (H3 : phase (fst (demo 134)) = Serving) by (vm_compute; reflexivity).
  split; [| split; [| split]].
  - split; [assumption |].
    rewrite (proj1 (phases_follow_one_cycle (750, 750) 3000 (demo 132) H0
                      (demo_reachable 132))), H1.
    vm_compute. reflexivity.
  - split; [assumption |].
    rewrite (proj1 (phases_follow_one_cycle (750, 750) 3000 (demo 133) H0
                      (demo_reachable 133))), H2.
    vm_compute. reflexivity.
  - destruct (proj1 (proj2 (proj2
                (phases_follow_one_cycle (750, 750) 3000 (demo 133) H0
                   (demo_reachable 133)))) H2) as (_ & _ & Hb & Hcx & Hcy).
    split; [exact Hb | split; [exact Hcx | exact Hcy]].
  - split; [assumption |].
    exact (proj2 (proj2 (proj2
             (phases_follow_one_cycle (750, 750) 3000 (demo 134) H0
                (demo_reachable 134)))) H3).
Defined.

(** ** The end of the match *)

Lemma update_scene_score_cases s w :
  0 <= width s -> rw (ball s) = 30 ->
  let s' := fst (update_scene s w) in
  (player_score s' = player_score s /\ ai_score s' = ai_score s) \/
  (player_score s' = player_score s /\ ai_score s' = ai_score s + 1) \/
  (player_score s' = player_score s + 1 /\ ai_score s' = ai_score s).
Proof.
  intros Hw Hb. cbv zeta.
  destruct (update_scene_scores s w Hw Hb) as [H | (s0 & H0 & H1)].
  - inversion H. auto.
  - unfold scores_after in H1. injection H0 as Hp Ha.
    destruct (_ <? 0); [| destruct (_ >? _)]; injection H1 as E1 E2;
      rewrite E1, E2, Hp, Ha; auto.
Qed.

Lemma won_b_false s : won_b s = false <-> player_score s < 3 /\ ai_score s < 3.
Proof.
  unfold won_b. rewrite orb_false_iff.
  destruct (Z.geb_spec (player_score s) 3), (Z.geb_spec (ai_score s) 3);
    split; intros (H1 & H2); try discriminate; try lia; auto.
Qed.

Lemma update_scene_settled s w :
  0 <= width s -> rw (ball s) = 30 ->
  settled s -> settled (fst (update_scene s w)).
Proof.
  intros Hw Hb (Hp & Ha & Hv).
  pose proof (update_scene_score_cases s w Hw Hb) as Hc. cbv zeta in Hc.
  split; [lia | split; [lia | split]].
  - intros Hvalid.
    destruct (update_scene_valid s w) as [(Ev & Ep & Ea) | Ev].
    + rewrite Ev in Hvalid. rewrite Ep, Ea. now apply Hv.
    + rewrite Ev in Hvalid.
      destruct (won_b (fst (update_scene s w))) eqn:Ewon; [discriminate |].
      now apply won_b_false in Ewon.
  - intros (H1 & H2).
    assert (Hs : is_valid s = true) by (apply Hv; lia).
    destruct (update_scene_valid s w) as [(Ev & _) | Ev]; rewrite Ev.
    + exact Hs.
    + rewrite (proj2 (won_b_false _) (conj H1 H2)). exact Hs.
Qed.

Lemma reachable_settled sz beep_ms sw :
  0 <= fst sz -> reachable sz beep_ms sw -> settled (fst sw).
Proof.
  intros Hw. induction 1 as [w0 | a [s w] Hr IH].
  - unfold settled; cbn. repeat split; lia.
  - destruct (fixed_fields _ _ _ (reachable_fixed _ _ _ Hr)) as (Hs & Hb & _).
    destruct a as [| e]; cbn [step fst snd] in *.
    + apply update_scene_settled; [unfold width; now rewrite Hs | exact Hb | exact IH].
    + destruct (process_event_scores e s) as (Ev & Ep & Ea).
      unfold settled. now rewrite Ev, Ep, Ea.
Qed.

(** X12. The scores name one winner.  In every reachable state of a scene
    on a surface of non-negative width no score is negative and the scene
    is valid exactly when both scores are below 3; and the frame that turns
    a valid scene invalid raises exactly one score, to exactly 3, and leaves
    the other, which is below 3, as it was. *)
Theorem match_has_one_winner sz beep_ms sw :
  0 <= fst sz ->
  reachable sz beep_ms sw ->
  let s := fst sw in
  let s' := fst (update_scene s (snd sw)) in
  0 <= player_score s /\ 0 <= ai_score s /\
  (is_valid s = true <-> player_score s < 3 /\ ai_score s < 3) /\
  (is_valid s = true -> is_valid s' = false ->
   (player_score s' = 3 /\ ai_score s' = ai_score s /\ ai_score s' < 3) \/
   (ai_score s' = 3 /\ player_score s' = player_score s /\ player_score s' < 3)).
Proof.
  intros Hw Hr. cbv zeta.
  destruct (reachable_settled sz beep_ms sw Hw Hr) as (Hp & Ha & Hv).
  destruct (reachable_settled sz beep_ms (step Frame sw) Hw (reach_step _ _ Frame sw Hr))
    as (_ & _ & Hv').
  destruct (fixed_fields _ _ _ (reachable_fixed _ _ _ Hr)) as (Hs & Hb & _).
  destruct sw as [s w]; cbn [fst snd step] in *.
  split; [exact Hp | split; [exact Ha | split; [exact Hv |]]].
  intros Hvalid Hinv.
  destruct (proj1 Hv Hvalid) as (H1 & H2).
  assert (Hnot : ~ (player_score (fst (update_scene s w)) < 3 /\
                    ai_score (fst (update_scene s w)) < 3)).
  { intros H. apply Hv' in H. congruence. }
  destruct (update_scene_score_cases s w) as [(Ep & Ea) | [(Ep & Ea) | (Ep & Ea)]];
    [unfold width; now rewrite Hs | exact Hb | | |];
    rewrite Ep, Ea in *; lia.
Qed.

(** Frame 234 of the demo match ends it at 0 : 3. *)
Lemma match_has_one_winner_witness :
  is_valid (fst (demo 234)) = true /\
  is_valid (fst (update_scene (fst (demo 234)) (snd (demo 234)))) = false /\
  ai_score (fst (update_scene (fst (demo 234)) (snd (demo 234)))) = 3 /\
  player_score (fst (update_scene (fst (demo 234)) (snd (demo 234)))) < 3.
Proof.
  assert (H0 : 0 <= fst (750, 750)) by (cbn; lia).
  assert (H1 : is_valid (fst (demo 234)) = true) by (vm_compute; reflexivity).
  assert (H2 : is_valid (fst (update_scene (fst (demo 234)) (snd (demo 234))))
               = false) by (vm_compute; reflexivity).
  assert (H3 : player_score (fst (update_scene (fst (demo 234)) (snd (demo 234))))
               = 0) by (vm_compute; reflexivity).
  split; [exact H1 | split; [exact H2 |]].
  destruct (proj2 (proj2 (proj2
              (match_has_one_winner (750, 750) 3000 (demo 234) H0
                 (demo_reachable 234)))) H1 H2)
    as [(Hp & _) | (Ha & _ & Hlt)].
  - exfalso. rewrite H3 in Hp. discriminate Hp.
  - split; assumption.
Defined.

(** ** The sounds of a frame *)

Lemma score_check_played s w :
  played (snd (score_check s w)) =
    played w ++ (if in_play_b s then [] else [ScoreSound]).
Proof.
  unfold score_check, in_play_b.
  destruct (Z.ltb_spec (right (ball s)) 0) as [H1 | H1].
  - destruct (Z.leb_spec 0 (right (ball s))); [lia |]. reflexivity.
  - destruct (Z.leb_spec 0 (right (ball s))); [| lia].
    destruct (Z.gtb_spec (left (ball s)) (width s)) as [H2 | H2];
      destruct (Z.leb_spec (left (ball s)) (width s)); try lia; cbn.
    + reflexivity.
    + now rewrite app_nil_r.
Qed.

Lemma wall_bounce_played s w :
  played (snd (wall_bounce s w)) =
    played w ++ (if wall_hit s then [PaddleSound] else []).
Proof.
  unfold wall_bounce, wall_hit. destruct (_ || _); cbn;
    rewrite ?app_nil_r; reflexivity.
Qed.

Lemma score_check_again_played s w :
  played (snd (score_check_again s w)) = played w.
Proof.
  unfold score_check_again.
  destruct (_ <? 0); [| destruct (_ >? _)]; reflexivity.
Qed.

Lemma finish_frame_played s w :
  played (snd (finish_frame s w)) =
    played w ++ (if wall_hit s then [PaddleSound] else []).
Proof.
  unfold finish_frame.
  apply bind_inv2 with
    (Q := fun p => played (snd p)
                   = played w ++ (if wall_hit s then [PaddleSound] else []));
    [apply wall_bounce_played |].
  intros s1 w1 H1. cbn [snd] in H1.
  apply bind_inv2 with
    (Q := fun p => played (snd p)
                   = played w ++ (if wall_hit s then [PaddleSound] else [])).
  { exact H1. }
  intros s2 w2 H2. cbn [snd] in H2.
  apply bind_inv2 with
    (Q := fun p => played (snd p)
                   = played w ++ (if wall_hit s then [PaddleSound] else [])).
  { now rewrite score_check_again_played. }
  intros s3 w3 H3. exact H3.
Qed.

Lemma rally_played s w :
  played (snd (rally s w)) = played w ++ rally_sounds s w.
Proof.
  rewrite rally_unfold. cbv zeta.
  rewrite finish_frame_played, score_check_played.
  destruct (paddle_contact_snd s w) as (_ & ->).
  unfold rally_sounds, after_check. now rewrite <- !app_assoc.
Qed.

(** X13. The sounds of a rally frame.  A frame that starts in [Rallying]
    plays, in this order and nothing else: the hit sound if the ball touches
    a paddle, the score sound if the moved ball is past a side, and the hit
    sound if the ball then (moved, or reset to the centre) touches or passes
    the top or the bottom edge.  It never plays the countdown sound, and it
    plays at most three sounds. *)
Theorem rally_frame_sounds s w :
  phase s = Rallying ->
  played (snd (update_scene s w)) =
    played w
    ++ (if contact s then [PaddleSound] else [])
    ++ (if in_play_b (moved s) then [] else [ScoreSound])
    ++ (if wall_hit (after_check s w) then [PaddleSound] else []) /\
  (List.length (played (snd (update_scene s w))) <= List.length (played w) + 3)%nat.
Proof.
  intros Hph. destruct (phase_rallying s Hph) as (Hs & Hw).
  rewrite (update_scene_rallying s w Hs Hw), rally_played.
  split; [reflexivity |].
  unfold rally_sounds. rewrite !length_app.
  destruct (contact s), (in_play_b (moved s)), (wall_hit (after_check s w));
    cbn; lia.
Qed.

(** Frame 132 of the demo match plays the score sound and nothing else. *)
Lemma rally_frame_sounds_witness :
  played (snd (update_scene (fst (demo 132)) (snd (demo 132))))
  = played (snd (demo 132)) ++ [ScoreSound].
Proof.
  assert (H : phase (fst (demo 132)) = Rallying) by (vm_compute; reflexivity).
  rewrite (proj1 (rally_frame_sounds (fst (demo 132)) (snd (demo 132)) H)).
  f_equal.
Defined.

Lemma score_sounds_app l1 l2 :
  score_sounds (l1 ++ l2) = (score_sounds l1 + score_sounds l2)%nat.
Proof. unfold score_sounds. now rewrite filter_app, length_app. Qed.

Lemma rally_score_sounds s w :
  0 <= width s -> rw (ball s) = 30 ->
  Z.of_nat (score_sounds (played (snd (rally s w)))) =
    Z.of_nat (score_sounds (played w))
    + (player_score (fst (rally s w)) + ai_score (fst (rally s w)))
    - (player_score s + ai_score s).
Proof.
  intros Hw Hb. pose proof (rally_scores s w Hw Hb) as Hsc.
  rewrite rally_played, score_sounds_app. unfold rally_sounds.
  rewrite !score_sounds_app.
  replace (score_sounds (if contact s then [PaddleSound] else [])) with 0%nat
    by (destruct (contact s); reflexivity).
  replace (score_sounds
             (if wall_hit (after_check s w) then [PaddleSound] else []))
    with 0%nat by (destruct (wall_hit (after_check s w)); reflexivity).
  unfold scores_after in Hsc. unfold in_play_b.
  destruct (moved_table s) as (_ & _ & _ & _ & _ & _ & _ & _ & Hsz & _).
  unfold width in *. rewrite Hsz.
  destruct (Z.ltb_spec (right (ball (moved s))) 0);
    destruct (Z.leb_spec 0 (right (ball (moved s)))); try lia;
    [injection Hsc as -> ->; cbn; lia |].
  destruct (Z.gtb_spec (left (ball (moved s))) (fst (size s)));
    destruct (Z.leb_spec (left (ball (moved s))) (fst (size s))); try lia;
    injection Hsc as -> ->; cbn; lia.
Qed.

Lemma after_serve_score_sounds s w :
  0 <= width s -> rw (ball s) = 30 ->
  Z.of_nat (score_sounds (played (snd (after_serve s w)))) =
    Z.of_nat (score_sounds (played w))
    + (player_score (fst (after_serve s w)) + ai_score (fst (after_serve s w)))
    - (player_score s + ai_score s).
Proof.
  intros Hw Hb. destruct (wait_after_score s) eqn:Hwait.
  - destruct (after_serve_waiting s w Hwait) as (w' & Hp & _ & _ & _ & ->).
    destruct (delay_pending w s); cbn [fst snd]; [rewrite Hp; lia |].
    rewrite (rally_score_sounds (back_to_serve s) w' Hw Hb), Hp. reflexivity.
  - rewrite (after_serve_rallying s w Hwait). now apply rally_score_sounds.
Qed.

(** X14. One score sound per point.  In every frame from a reachable state
    of a scene on a surface of non-negative width, whatever the phase, the
    score sound is played exactly as many times as points are scored in the
    frame: once in a frame that raises a score, never in any other. *)
Theorem one_score_sound_per_point sz beep_ms sw :
  0 <= fst sz ->
  reachable sz beep_ms sw ->
  let s := fst sw in
  let s' := fst (update_scene s (snd sw)) in
  let w' := snd (update_scene s (snd sw)) in
  Z.of_nat (score_sounds (played w')) - Z.of_nat (score_sounds (played (snd sw)))
  = (player_score s' + ai_score s') - (player_score s + ai_score s).
Proof.
  intros Hw Hr. cbv zeta.
  destruct (fixed_fields _ _ _ (reachable_fixed _ _ _ Hr)) as (Hs & Hb & _).
  destruct sw as [s w]; cbn [fst snd] in *.
  assert (Hw0 : 0 <= width s) by (unfold width; now rewrite Hs).
  destruct (serve s) eqn:Es.
  - destruct (update_scene_serving s w Es) as (w1 & Hp & _ & _ & _ & ->).
    assert (Hq : score_sounds (played w1) = score_sounds (played w)).
    { rewrite Hp, score_sounds_app. destruct (countdown_played s); cbn; lia. }
    assert (Hc : player_score (countdown_started w s) = player_score s /\
                 ai_score (countdown_started w s) = ai_score s /\
                 width (countdown_started w s) = width s /\
                 rw (ball (countdown_started w s)) = rw (ball s)).
    { unfold countdown_started. destruct (countdown_played s); repeat split. }
    destruct Hc as (Cp & Ca & Cw & Cb).
    destruct (countdown_pending w s); cbn [fst snd].
    + rewrite Hq, Cp, Ca. lia.
    + assert (H1 : 0 <= width (set_serve false (countdown_started w s)))
        by (change (0 <= width (countdown_started w s)); now rewrite Cw).
      assert (H2 : rw (ball (set_serve false (countdown_started w s))) = 30)
        by (change (rw (ball (countdown_started w s)) = 30); now rewrite Cb).
      rewrite (after_serve_score_sounds _ w1 H1 H2).
      cbn [player_score ai_score set_serve]. rewrite Hq, Cp, Ca. lia.
  - unfold update_scene. rewrite Es.
    rewrite (after_serve_score_sounds s w Hw0 Hb). lia.
Qed.

(** Frame 132 of the demo match: one point, one score sound. *)
Lemma one_score_sound_per_point_witness :
  let s := fst (demo 132) in
  let s' := fst (update_scene s (snd (demo 132))) in
  let w' := snd (update_scene s (snd (demo 132))) in
  ai_score s' = ai_score s + 1 /\
  Z.of_nat (score_sounds (played w'))
  - Z.of_nat (score_sounds (played (snd (demo 132))))
  = (player_score s' + ai_score s') - (player_score s + ai_score s).
Proof.
  cbv zeta. split; [vm_compute; reflexivity |].
  assert (H0 : 0 <= fst (750, 750)) by (cbn; lia).
  exact (one_score_sound_per_point (750, 750) 3000 (demo 132) H0
           (demo_reachable 132)).
Defined.

(** ** The ball and the paddles between rallies *)

Lemma no_contact_between_columns s :
  rw (ball s) = 30 -> rw (player s) = 20 -> rw (ai s) = 20 ->
  rx (player s) = 30 -> rx (ai s) = width s - 40 ->
  50 <= rx (ball s) -> rx (ball s) + 30 <= width s - 40 ->
  contact s = false.
Proof.
  intros Hb Hp Ha Hpx Hax Hl Hr. unfold contact, colliderect.
  rewrite Hb, Hp, Ha, Hpx, Hax.
  apply orb_false_iff. split.
  - destruct (_ || _); [reflexivity |].
    destruct (Z.ltb_spec (Z.min (rx (ball s)) (rx (ball s) + 30))
                         (Z.max 30 (30 + 20))); [lia | reflexivity].
  - destruct (_ || _); [reflexivity |].
    destruct (Z.gtb_spec (Z.max (rx (ball s)) (rx (ball s) + 30))
                         (Z.min (width s - 40) (width s - 40 + 20))); [lia |].
    now rewrite !andb_false_r.
Qed.

(** X15. No paddle hit while the scene waits.  In every reachable state of a
    scene on a surface at least 146 wide that is in [Serving] or in
    [ScoredWaiting], the ball touches neither paddle: the rally that follows
    a serve starts with the ball moving in the direction the reset drew. *)
Theorem no_contact_while_waiting sz beep_ms sw :
  146 <= fst sz ->
  reachable sz beep_ms sw ->
  let s := fst sw in
  phase s <> Rallying ->
  colliderect (ball s) (player s) = false /\
  colliderect (ball s) (ai s) = false.
Proof.
  intros Hw Hr. cbv zeta. intros Hph.
  assert (Hw2 : 2 <= fst sz) by lia.
  assert (Hw0 : 0 <= fst sz) by lia.
  destruct (fixed_fields _ _ _ (reachable_fixed _ _ _ Hr))
    as (Hs & Hb & _ & Hpw & _ & Haw & _).
  destruct (reachable_lanes sz beep_ms sw Hw0 Hr) as (Hpx & Hax).
  destruct (reachable_staged sz beep_ms sw Hw2 Hr) as (Hwait & Hserve).
  assert (Hx : fst sz / 2 - 15 - 8 <= rx (ball (fst sw)) <= fst sz / 2 - 15 + 8).
  { unfold phase, width in *. rewrite Hs in *.
    destruct (serve (fst sw)); [now destruct (Hserve eq_refl) as (_ & ? & _) |].
    destruct (wait_after_score (fst sw)); [| congruence].
    destruct (Hwait eq_refl) as (_ & -> & _). lia. }
  apply orb_false_iff. apply no_contact_between_columns; try assumption;
    unfold width; rewrite ?Hs; lia.
Qed.

(** The round delay after the first point of the demo match. *)
Lemma no_contact_while_waiting_witness :
  phase (fst (demo 133)) = ScoredWaiting /\
  colliderect (ball (fst (demo 133))) (player (fst (demo 133))) = false /\
  colliderect (ball (fst (demo 133))) (ai (fst (demo 133))) = false.
Proof.
  assert (H0 : 146 <= fst (750, 750)) by (cbn; lia).
  assert (H1 : phase (fst (demo 133)) = ScoredWaiting) by (vm_compute; reflexivity).
  split; [exact H1 |].
  apply (no_contact_while_waiting (750, 750) 3000 (demo 133) H0
           (demo_reachable 133)).
  rewrite H1. discriminate.
Defined.
